(** * Verification of the Syntra backend analysis pipeline

    Shallow embedding of the request handler of the Syntra backend
    ([app.post('/analyze')] after JSON parsing), of [buildPrompt],
    [extractText], [validateAndFixDiagrams], [validateMermaid] and
    [validatePlantUML], and of the document assembly (placeholder
    substitution and cleanup).

    Modelling conventions.
    - JavaScript strings are Rocq [string]s; each [ascii] stands for one
      UTF-16 code unit in the range U+0000..U+00FF.
    - Values produced by [JSON.parse] are [json]; a JavaScript value that
      may also be [undefined] is a [jsval] ([None] is [undefined]).
      JSON numbers are modelled as integers.
    - A computation that may throw returns [option]; [None] is a thrown
      [TypeError].
    - External services (the mermaid parser, the PlantUML server, the
      OpenAI API, the PlantUML text encoder) are fields of an environment
      record; calls to them, and validator calls with their outcome, are
      recorded in a trace kept in the state, most recent event first. *)

From Stdlib Require Import String Ascii List ZArith Bool Lia.
From Stdlib Require Import Numbers.DecimalString.
Import ListNotations.
Open Scope string_scope.
Set Warnings "-register-all -abstract-large-number".

(** ** JSON values and JavaScript value operations *)

Inductive json : Type :=
| JNull
| JBool (b : bool)
| JNum (z : Z)
| JStr (s : string)
| JArr (l : list json)
| JObj (fields : list (string * json)).

(** [None] is [undefined]. *)
Definition jsval := option json.

(** Own property lookup in an object built by [JSON.parse]: for a
    repeated key the last occurrence wins. *)
Fixpoint assoc (k : string) (fs : list (string * json)) : option json :=
  match fs with
  | [] => None
  | (k', v) :: r =>
      match assoc k r with
      | Some x => Some x
      | None => if String.eqb k' k then Some v else None
      end
  end.

(** Property access [v.p]: throws on [null] and [undefined]; the property
    names used by the program ([markdown], [diagrams], [type], [code],
    [position], [output], [content], [text], [value], [choices],
    [message]) are not inherited by any JSON value. *)
Definition get (v : jsval) (p : string) : option jsval :=
  match v with
  | None | Some JNull => None
  | Some (JObj fs) => Some (assoc p fs)
  | Some _ => Some None
  end.

(** Optional chaining [v?.p]. *)
Definition get_opt (v : jsval) (p : string) : option jsval :=
  match v with
  | None | Some JNull => Some None
  | _ => get v p
  end.

(** Nullish coalescing [a ?? b]. *)
Definition nullish (a b : jsval) : jsval :=
  match a with
  | None | Some JNull => b
  | _ => a
  end.

(** JavaScript truthiness ([Boolean(v)], [!v] negated). *)
Definition truthy (v : jsval) : bool :=
  match v with
  | None | Some JNull => false
  | Some (JBool b) => b
  | Some (JNum z) => negb (Z.eqb z 0)
  | Some (JStr s) => negb (String.eqb s "")
  | Some (JArr _) | Some (JObj _) => true
  end.

Definition Z_to_string (z : Z) : string :=
  NilEmpty.string_of_int (Z.to_int z).

(** *** Numbers

    A JSON integer literal [z] denotes the binary64 number nearest to it
    ([JSON.parse]); [JNum z] stands for that number. [round_double n] is
    the double nearest to the non-negative integer [n] (ties to even), or
    [None] when it overflows to [Infinity]. *)
Local Open Scope Z_scope.

Definition round_double (n : Z) : option Z :=
  if n <? 2 ^ 53 then Some n
  else
    let e := Z.log2 n - 52 in
    let q := Z.shiftr n e in
    let rem := n - Z.shiftl q e in
    let half := 2 ^ (e - 1) in
    let q' := if (half <? rem) || ((rem =? half) && Z.odd q) then q + 1 else q in
    let x := Z.shiftl q' e in
    if 2 ^ 1024 <=? x then None else Some x.

Definition rounds_to (v x : Z) : bool :=
  match round_double v with Some y => Z.eqb y x | None => false end.

Definition ndigits (x : Z) : nat := String.length (Z_to_string x).

(** [Number::toString], step 5: the fewest significant digits [k] whose
    value [s * 10 ^ (n - k)] still rounds to the double [x] ([x] has [d]
    decimal digits); of two such values the closer one, and of two equally
    close ones the one with even [s]. *)
Fixpoint shortest_from (x : Z) (d : nat) (fuel k : nat) : Z :=
  match fuel with
  | O => x
  | S fuel' =>
      let p := 10 ^ Z.of_nat (d - k)%nat in
      let s := x / p in
      let lo := s * p in
      let hi := (s + 1) * p in
      match rounds_to lo x, rounds_to hi x with
      | true, true =>
          if x - lo <? hi - x then lo
          else if hi - x <? x - lo then hi
          else if Z.even s then lo else hi
      | true, false => lo
      | false, true => hi
      | false, false => shortest_from x d fuel' (S k)
      end
  end.

Fixpoint strip_trailing_zeros (fuel : nat) (v : Z) : Z :=
  match fuel with
  | O => v
  | S f => if (0 <? v) && (v mod 10 =? 0) then strip_trailing_zeros f (v / 10) else v
  end.

(** [Number::toString] of a positive integer-valued double [x]: plain
    digits up to 21 of them, exponent form ([1e+21], [1.5e+22]) beyond. *)
Definition double_to_string (x : Z) : string :=
  let d := ndigits x in
  let v := shortest_from x d d 1 in
  let n := ndigits v in
  if Nat.leb n 21 then Z_to_string v
  else
    let exp := "e+" ++ Z_to_string (Z.of_nat n - 1) in
    match Z_to_string (strip_trailing_zeros n v) with
    | String c EmptyString => String c exp
    | String c r => String c ("." ++ r ++ exp)
    | EmptyString => exp
    end.

(** [String(n)] for the number a JSON integer literal [z] denotes. Below
    [2 ^ 53] every integer is a double and prints as its digits. *)
Definition number_to_string (z : Z) : string :=
  let pos n :=
    if n <? 2 ^ 53 then Z_to_string n
    else match round_double n with
         | Some x => double_to_string x
         | None => "Infinity"
         end in
  if z <? 0 then "-" ++ pos (- z) else pos z.

Local Close Scope Z_scope.

Definition has_key (k : string) (fs : list (string * json)) : bool :=
  match assoc k fs with Some _ => true | None => false end.

(** [Array.prototype.join]: [null] and [undefined] elements become the
    empty string. *)
Fixpoint join_with (sep : string) (l : list string) : string :=
  match l with
  | [] => ""
  | [x] => x
  | x :: r => x ++ sep ++ join_with sep r
  end.

Fixpoint sequence_opt {A} (l : list (option A)) : option (list A) :=
  match l with
  | [] => Some []
  | Some x :: r => match sequence_opt r with Some r' => Some (x :: r') | None => None end
  | None :: _ => None
  end.

(** [ToString] of a JSON value. A plain object converts through
    [Object.prototype.toString]; an own non-callable [toString] property
    (possible in parsed JSON) hides it, and [valueOf] then returns the
    object itself, so the conversion throws. *)
Fixpoint json_to_string (v : json) : option string :=
  match v with
  | JNull => Some "null"
  | JBool true => Some "true"
  | JBool false => Some "false"
  | JNum z => Some (number_to_string z)
  | JStr s => Some s
  | JArr l =>
      match sequence_opt
              (map (fun e => match e with JNull => Some "" | _ => json_to_string e end) l)
      with
      | Some ss => Some (join_with "," ss)
      | None => None
      end
  | JObj fs => if has_key "toString" fs then None else Some "[object Object]"
  end.

Definition js_to_string (v : jsval) : option string :=
  match v with
  | None => Some "undefined"
  | Some j => json_to_string j
  end.

Definition js_join (sep : string) (l : list jsval) : option string :=
  match sequence_opt
          (map (fun e => match e with None | Some JNull => Some "" | _ => js_to_string e end) l)
  with
  | Some ss => Some (join_with sep ss)
  | None => None
  end.

(** ** Strings *)

(** [String.prototype.trim] on code units U+0000..U+00FF: tab, line feed,
    vertical tab, form feed, carriage return, space and no-break space. *)
Definition is_ws (c : ascii) : bool :=
  match nat_of_ascii c with
  | 9 | 10 | 11 | 12 | 13 | 32 | 160 => true
  | _ => false
  end.

Fixpoint trim_start (s : string) : string :=
  match s with
  | String c r => if is_ws c then trim_start r else s
  | EmptyString => EmptyString
  end.

Fixpoint rev_string (s : string) : string :=
  match s with
  | String c r => rev_string r ++ String c EmptyString
  | EmptyString => EmptyString
  end.

Definition trim (s : string) : string :=
  rev_string (trim_start (rev_string (trim_start s))).

Fixpoint strip_prefix (p s : string) : option string :=
  match p, s with
  | EmptyString, _ => Some s
  | String a p', String b s' => if Ascii.eqb a b then strip_prefix p' s' else None
  | String _ _, EmptyString => None
  end.

Definition starts_with (p s : string) : bool :=
  match strip_prefix p s with Some _ => true | None => false end.

(** [s.includes(p)]. *)
Fixpoint includes (s p : string) : bool :=
  starts_with p s || match s with String _ r => includes r p | EmptyString => false end.

(** The one-character string ["\n"]. *)
Definition nl : string := String (ascii_of_nat 10) EmptyString.

(** ** Response Extractor: [extractText] *)

(** [node.content ?? []] as seen by [flatMap]: an array is spread, any
    other value is kept as one element. *)
Definition flat_piece (c : jsval) : list jsval :=
  match nullish c (Some (JArr [])) with
  | Some (JArr l) => map Some l
  | v => [v]
  end.

(** [chunk.text?.value ?? chunk.text ?? ''] *)
Definition chunk_text (chunk : jsval) : option jsval :=
  match get chunk "text" with
  | None => None
  | Some t =>
      match get_opt t "value" with
      | None => None
      | Some v => Some (nullish v (nullish t (Some (JStr ""))))
      end
  end.

(** [choice.message?.content ?? ''] *)
Definition choice_text (choice : jsval) : option jsval :=
  match get choice "message" with
  | None => None
  | Some m =>
      match get_opt m "content" with
      | None => None
      | Some c => Some (nullish c (Some (JStr "")))
      end
  end.

Definition extractText (response : jsval) : option string :=
  if negb (truthy response) then Some ""
  else
    match get response "output" with
    | None => None
    | Some out =>
        if truthy out then
          match out with
          | Some (JArr nodes) =>
              match sequence_opt
                      (map (fun node => match get (Some node) "content" with
                                        | Some c => Some (flat_piece c)
                                        | None => None
                                        end) nodes) with
              | None => None
              | Some pieces =>
                  match sequence_opt (map chunk_text (concat pieces)) with
                  | None => None
                  | Some texts =>
                      match js_join nl
                                    (filter truthy texts) with
                      | Some s => Some (trim s)
                      | None => None
                      end
                  end
              end
          | _ => None (* [response.output.flatMap] is not a function *)
          end
        else
          match get response "choices" with
          | None => None
          | Some ch =>
              if truthy ch then
                match ch with
                | Some (JArr cs) =>
                    match sequence_opt (map (fun c => choice_text (Some c)) cs) with
                    | None => None
                    | Some texts =>
                        match js_join nl texts with
                        | Some s => Some (trim s)
                        | None => None
                        end
                    end
                | _ => None (* [response.choices.map] is not a function *)
                end
              else Some ""
          end
    end.



(** ** Prompt construction: [buildPrompt] *)

(** [code.slice(0, n)] *)
Definition slice0 (n : nat) (s : string) : string := substring 0 n s.

Definition buildPrompt (filename code : string) : string :=
  join_with nl
    [ "File name: " ++ filename;
      "";
      "Analyze this code file and produce function-by-function documentation.";
      "For each function, provide metadata (parameters, return type, side effects) and a narrative explanation of its logic flow.";
      "Write the narrative as if telling a story - abstract the implementation into logical concepts.";
      "Include diagrams (flowcharts, sequence diagrams) when they help visualize complex logic flows.";
      "Use the JSON structure specified in the system prompt.";
      "";
      "Code:";
      "```";
      slice0 12000 code;
      "```" ].

(** ** Document assembly *)

(** [String.prototype.indexOf(pat)] *)
Fixpoint index_of (s pat : string) : option nat :=
  if starts_with pat s then Some 0
  else match s with
       | String _ r => option_map S (index_of r pat)
       | EmptyString => None
       end.

(** GetSubstitution for a string pattern (no capture groups): [$$],
    [$&], [$`] and [$'] are expanded, any other [$] is kept. *)
Fixpoint get_substitution (rep matched pre post : string) : string :=
  match rep with
  | EmptyString => EmptyString
  | String d r0 =>
      if Ascii.eqb d "$"%char then
        match r0 with
        | String c r =>
            if Ascii.eqb c "$"%char then String "$"%char (get_substitution r matched pre post)
            else if Ascii.eqb c "&"%char then matched ++ get_substitution r matched pre post
            else if Ascii.eqb c "`"%char then pre ++ get_substitution r matched pre post
            else if Ascii.eqb c "'"%char then post ++ get_substitution r matched pre post
            else String "$"%char (get_substitution r0 matched pre post)
        | EmptyString => String "$"%char EmptyString
        end
      else String d (get_substitution r0 matched pre post)
  end.

(** [s.replace(pat, rep)] with a string pattern: only the first
    occurrence is replaced. *)
Definition replace_first (s pat rep : string) : string :=
  match index_of s pat with
  | None => s
  | Some p =>
      let pre := substring 0 p s in
      let post := substring (p + String.length pat) (String.length s) s in
      pre ++ get_substitution rep pat pre post ++ post
  end.

Definition is_digit (c : ascii) : bool :=
  let n := nat_of_ascii c in (Nat.leb 48 n && Nat.leb n 57)%bool.

(** Length of [\d*\}\}] at the head of a string. *)
Fixpoint digits_close (s : string) : option nat :=
  match s with
  | String c r =>
      if is_digit c then option_map S (digits_close r)
      else if starts_with "}}" s then Some 2 else None
  | EmptyString => None
  end.

(** Length of a match of [/\{\{DIAGRAM_\d+\}\}/] at the head of a string. *)
Definition token_len (s : string) : option nat :=
  match strip_prefix "{{DIAGRAM_" s with
  | Some (String c r) =>
      if is_digit c then option_map (fun k => 11 + k) (digits_close r) else None
  | _ => None
  end.

(** [s.replace(/\{\{DIAGRAM_\d+\}\}/g, '')]: a left-to-right scan; after a
    match the scan resumes behind it ([skip] characters still to drop). *)
Fixpoint cleanup_from (skip : nat) (s : string) : string :=
  match s with
  | EmptyString => EmptyString
  | String c r =>
      match skip with
      | S k => cleanup_from k r
      | O =>
          match token_len s with
          | Some n => cleanup_from (pred n) r
          | None => String c (cleanup_from 0 r)
          end
      end
  end.

Definition cleanup (s : string) : string := cleanup_from 0 s.

Definition placeholder (pos : string) : string := "{{DIAGRAM_" ++ pos ++ "}}".

Definition fence (ty : jsval) (code : string) : string :=
  match ty with
  | Some (JStr t) =>
      if String.eqb t "mermaid" then "```mermaid" ++ nl ++ code ++ nl ++ "```"
      else "```plantuml" ++ nl ++ code ++ nl ++ "```"
  | _ => "```plantuml" ++ nl ++ code ++ nl ++ "```"
  end.

(** ** External services, state and trace *)

Inductive vkind : Type := KMermaid | KPlantUML.

(** A [ValidationOutcome]: [{valid: true, error: null}] or
    [{valid: false, error}]. *)
Inductive outcome : Type :=
| Valid
| Invalid (error : string).

(** What [fetch] does for one request: throw, or answer with a status
    and a text body. *)
Inductive fetch_reply : Type :=
| FetchThrow (message : string)
| FetchResponse (ok : bool) (status : Z) (statusText : string) (body : string).

(** What [openai.responses.create] does for one repair request. *)
Inductive model_reply : Type :=
| ModelThrow
| ModelResponse (response : json).

(** The content of a repair request: the diagram type, the code and the
    error interpolated into the prompt. *)
Record repair_request : Type := {
  rq_type : string;
  rq_code : string;
  rq_error : string
}.

Inductive event : Type :=
(** a call of [validateMermaid] or [validatePlantUML] from the repair
    loop, with its argument and its outcome *)
| EvValidate (k : vkind) (code : jsval) (o : outcome)
(** a call of [mermaid.parse] (in process, no I/O) *)
| EvMermaidParse (src : string)
(** an HTTP request to the PlantUML server *)
| EvFetch (url : string)
(** a repair call to the OpenAI API for the given code and error, with the
    cleaned text it produced, [None] when the call threw *)
| EvRepair (code : jsval) (err : string) (fixed : option string).

Record env : Type := {
  (** [mermaid.parse]: [None] when the text parses, else the message of
      the thrown error ([error.message || error.str || String(error)]) *)
  mermaid_parse : string -> option string;
  (** [encode] of plantuml-encoder *)
  plantuml_encode : string -> string;
  (** the [n]-th HTTP request of the process *)
  fetch_txt : nat -> string -> fetch_reply;
  (** the [n]-th repair call of the process *)
  responses_create : nat -> repair_request -> model_reply
}.

Record state : Type := {
  mermaid_initialized : bool;
  trace : list event
}.

Definition log (e : event) (st : state) : state :=
  {| mermaid_initialized := mermaid_initialized st; trace := e :: trace st |}.

Definition is_fetch (e : event) : bool :=
  match e with EvFetch _ => true | _ => false end.

Definition is_repair (e : event) : bool :=
  match e with EvRepair _ _ _ => true | _ => false end.

(** Events that leave the process (HTTP to PlantUML, OpenAI calls). *)
Definition is_network (e : event) : bool := is_fetch e || is_repair e.

Definition M (A : Type) : Type := state -> A * state.

(** ** Diagram validators *)

Definition lower (c : ascii) : ascii :=
  let n := nat_of_ascii c in
  if (Nat.leb 65 n && Nat.leb n 90)%bool then ascii_of_nat (n + 32) else c.

(** Case-insensitive [startsWith] (the pattern is lower-case ASCII). *)
Fixpoint ci_starts (p s : string) : bool :=
  match p, s with
  | EmptyString, _ => true
  | String a p', String b s' => Ascii.eqb a (lower b) && ci_starts p' s'
  | String _ _, EmptyString => false
  end.

(** Length of the [[^\n]*] run at the head of a string. *)
Fixpoint line_len (s : string) : nat :=
  match s with
  | String c r => if Ascii.eqb c (ascii_of_nat 10) then 0 else S (line_len r)
  | EmptyString => 0
  end.

(** [text.match(/cannot [^\n]+|syntax error[^\n]*|Error[^\n]*/i)] *)
Fixpoint error_match (s : string) : option string :=
  let alt1 :=
    if ci_starts "cannot " s then
      let k := line_len (substring 7 (String.length s) s) in
      if Nat.eqb k 0 then None else Some (substring 0 (7 + k) s)
    else None in
  match alt1 with
  | Some m => Some m
  | None =>
      if ci_starts "syntax error" s then
        Some (substring 0 (12 + line_len (substring 12 (String.length s) s)) s)
      else if ci_starts "error" s then
        Some (substring 0 (5 + line_len (substring 5 (String.length s) s)) s)
      else match s with
           | String _ r => error_match r
           | EmptyString => None
           end
  end.

Definition has_error_marker (text : string) : bool :=
  includes text "cannot include" || includes text "syntax error"
  || includes text "Error" || includes text "^^^^^".

(** The [TypeError] message of [definition.trim()] on a non-string. *)
Definition trim_type_error (definition : jsval) : string :=
  match definition with
  | None => "Cannot read properties of undefined (reading 'trim')"
  | Some JNull => "Cannot read properties of null (reading 'trim')"
  | Some _ => "definition.trim is not a function"
  end.

Section Pipeline.

Context (E : env).

(** [initMermaid]: the JSDOM environment is set up once. *)
Definition initMermaid : M unit := fun st =>
  (tt, {| mermaid_initialized := true; trace := trace st |}).

Definition validateMermaid (definition : jsval) : M outcome := fun st0 =>
  let '(_, st) := initMermaid st0 in
  match definition with
  | Some (JStr s) =>
      let trimmed := trim s in
      if String.eqb trimmed "" then (Invalid "Empty Mermaid definition", st)
      else
        (match mermaid_parse E trimmed with
         | None => Valid
         | Some msg => Invalid msg
         end, log (EvMermaidParse trimmed) st)
  | _ => (Invalid (trim_type_error definition), st)
  end.

Definition plantuml_url (encoded : string) : string :=
  "https://www.plantuml.com/plantuml/txt/" ++ encoded.

Definition validatePlantUML (definition : jsval) : M outcome := fun st =>
  match definition with
  | Some (JStr s) =>
      let trimmed := trim s in
      if String.eqb trimmed "" then (Invalid "Empty PlantUML definition", st)
      else
        let url := plantuml_url (plantuml_encode E trimmed) in
        let n := List.length (filter is_fetch (trace st)) in
        let st' := log (EvFetch url) st in
        match fetch_txt E n url with
        | FetchThrow msg => (Invalid msg, st')
        | FetchResponse ok status statusText text =>
            if negb ok then
              (Invalid ("HTTP " ++ Z_to_string status ++ ": " ++ statusText), st')
            else if has_error_marker text then
              (Invalid (match error_match text with
                        | Some m => trim m
                        | None => "PlantUML syntax error detected"
                        end), st')
            else (Valid, st')
        end
  | _ => (Invalid (trim_type_error definition), st)
  end.

(** ** Diagram Repair Loop: [validateAndFixDiagrams] *)

(** The dispatch on [diagram.type] (strict equality). *)
Definition classify (ty : jsval) : option vkind :=
  match ty with
  | Some (JStr t) =>
      if String.eqb t "mermaid" then Some KMermaid
      else if (String.eqb t "plantuml" || String.eqb t "puml" || String.eqb t "uml")%bool
      then Some KPlantUML
      else None
  | _ => None
  end.

Definition validator (k : vkind) : jsval -> M outcome :=
  match k with
  | KMermaid => validateMermaid
  | KPlantUML => validatePlantUML
  end.

(** [validation = await validateX(currentCode)] at the call site. *)
Definition run_validator (k : vkind) (code : jsval) : M outcome := fun st =>
  let '(o, st') := validator k code st in
  (o, log (EvValidate k code o) st').

Definition is_word_char (c : ascii) : bool :=
  let n := nat_of_ascii c in
  (Nat.leb 48 n && Nat.leb n 57) || (Nat.leb 65 n && Nat.leb n 90)
  || (Nat.leb 97 n && Nat.leb n 122) || Nat.eqb n 95.

Fixpoint drop_word_chars (s : string) : string :=
  match s with
  | String c r => if is_word_char c then drop_word_chars r else s
  | EmptyString => EmptyString
  end.

(** [s.replace(/^```\w*\n/, '')] *)
Definition strip_open_fence (s : string) : string :=
  match strip_prefix "```" s with
  | Some r =>
      match drop_word_chars r with
      | String c r' => if Ascii.eqb c (ascii_of_nat 10) then r' else s
      | EmptyString => s
      end
  | None => s
  end.

(** [s.replace(/\n```$/, '')] *)
Definition strip_close_fence (s : string) : string :=
  let n := String.length s in
  if (Nat.leb 4 n && String.eqb (substring (n - 4) 4 s) (nl ++ "```"))%bool
  then substring 0 (n - 4) s
  else s.

(** [fixedCode.replace(...).replace(...).trim()] *)
Definition clean_fix (fixedCode : string) : string :=
  trim (strip_close_fence (strip_open_fence fixedCode)).

(** One repair attempt, inside the [try] of the loop: [None] when anything
    throws. Building the prompt converts the type and the code to strings;
    if that throws, the API is not called. *)
Definition repair_call (ty code : jsval) (lastError : string) : M (option string) := fun st =>
  match js_to_string ty, js_to_string code with
  | Some t, Some c =>
      let n := List.length (filter is_repair (trace st)) in
      let fixed :=
        match responses_create E n {| rq_type := t; rq_code := c; rq_error := lastError |} with
        | ModelThrow => None
        | ModelResponse r =>
            match extractText (Some r) with
            | Some txt => Some (clean_fix (trim txt))
            | None => None
            end
        end in
      (fixed, log (EvRepair code lastError fixed) st)
  | _, _ => (None, st)
  end.

(** The [while (attempts <= maxRetries && !isValid)] loop. It returns
    [(currentCode, isValid, lastError)]. [fuel] bounds the number of
    iterations; every iteration that continues increments [attempts], so
    [S maxRetries] is enough. *)
Fixpoint fix_loop (fuel : nat) (ty : jsval) (maxRetries attempts : nat)
         (currentCode : jsval) (lastError : option string)
  : M (jsval * bool * option string) := fun st =>
  match fuel with
  | O => ((currentCode, false, lastError), st)
  | S fuel' =>
      if Nat.leb attempts maxRetries then
        match classify ty with
        | None => ((currentCode, true, lastError), st) (* unknown type, skip validation *)
        | Some k =>
            let '(validation, st1) := run_validator k currentCode st in
            match validation with
            | Valid => ((currentCode, true, lastError), st1)
            | Invalid e =>
                if Nat.ltb attempts maxRetries then
                  let '(r, st2) := repair_call ty currentCode e st1 in
                  match r with
                  | Some fixed =>
                      fix_loop fuel' ty maxRetries (S attempts) (Some (JStr fixed)) (Some e) st2
                  | None => ((currentCode, false, Some e), st2)
                  end
                else ((currentCode, false, Some e), st1)
            end
        end
      else ((currentCode, false, lastError), st)
  end.

(** The object pushed to [results]. *)
Record diagram_result : Type := {
  r_type : jsval;
  r_code : jsval;
  r_originalPosition : jsval;
  r_valid : bool;
  r_error : option string
}.

(** The body of the [for] loop for [diagrams[i]]; [None] when it throws:
    reading a property of an entry that is [null], or the log line
    [type=${diagram.type}] converting a type that has no string form. *)
Definition process_diagram (maxRetries i : nat) (diagram : json)
  : M (option diagram_result) := fun st =>
  match get (Some diagram) "type", get (Some diagram) "code", get (Some diagram) "position" with
  | Some ty, Some code, Some position =>
      match js_to_string ty with
      | None => (None, st)
      | Some _ =>
      let '((currentCode, isValid, lastError), st') :=
        fix_loop (S maxRetries) ty maxRetries 0 code None st in
      (Some {| r_type := ty;
               r_code := currentCode;
               r_originalPosition := nullish position (Some (JNum (Z.of_nat i)));
               r_valid := isValid;
               r_error := if isValid then None else lastError |}, st')
      end
  | _, _, _ => (None, st)
  end.

Fixpoint validate_from (maxRetries i : nat) (diagrams : list json)
  : M (option (list diagram_result)) := fun st =>
  match diagrams with
  | [] => (Some [], st)
  | d :: rest =>
      let '(o, st1) := process_diagram maxRetries i d st in
      match o with
      | None => (None, st1)
      | Some x =>
          let '(o2, st2) := validate_from maxRetries (S i) rest st1 in
          (option_map (cons x) o2, st2)
      end
  end.

Definition validateAndFixDiagrams (diagrams : list json) (maxRetries : nat)
  : M (option (list diagram_result)) :=
  validate_from maxRetries 0 diagrams.

End Pipeline.

(** ** Assembly and the request handler *)

(** One [forEach] step: [finalMarkdown.replace(placeholder, diagramBlock)]. *)
Definition assemble_step (md : string) (d : diagram_result) : option string :=
  match js_to_string (r_originalPosition d), js_to_string (r_code d) with
  | Some pos, Some code => Some (replace_first md (placeholder pos) (fence (r_type d) code))
  | _, _ => None
  end.

Fixpoint substitute_all (md : string) (ds : list diagram_result) : option string :=
  match ds with
  | [] => Some md
  | d :: rest =>
      match assemble_step md d with
      | Some md' => substitute_all md' rest
      | None => None
      end
  end.

(** The Document Assembler: substitutions in list order, then the
    placeholder cleanup. [markdown] is the parsed value; a non-string has
    no [replace] method. *)
Definition assemble (markdown : jsval) (ds : list diagram_result) : option string :=
  match markdown with
  | Some (JStr md) =>
      match substitute_all md ds with
      | Some s => Some (cleanup s)
      | None => None
      end
  | _ => None
  end.

Inductive reply : Type :=
| Reply200 (markdown : string)
| ReplyError (status : Z) (error : string).

Definition internal_error : reply := ReplyError 500 "Failed to process code file.".

(** The [length] property of a (non-nullish) value: the length of a
    string or an array, an own [length] field of an object, [undefined]
    for a number or a boolean. *)
Definition length_prop (v : jsval) : jsval :=
  match v with
  | Some (JStr s) => Some (JNum (Z.of_nat (String.length s)))
  | Some (JArr l) => Some (JNum (Z.of_nat (List.length l)))
  | Some (JObj fs) => assoc "length" fs
  | _ => None
  end.

(** [app.post('/analyze')] of [src/unnamed/part_000] from the parsed JSON
    value on ([parsed = JSON.parse(...)]). The log line
    [`Markdown length: ${parsed.markdown.length} characters`] converts the
    length to a string before any diagram is validated; the log of
    [parsed.diagrams.length] reads the length of an array and cannot
    throw. *)
Definition analyze_parsed (E : env) (parsed : json) : M reply := fun st =>
  match get (Some parsed) "markdown" with
  | None => (internal_error, st)
  | Some markdown =>
      if negb (truthy markdown) then
        (ReplyError 502 "Missing markdown in response from GPT-5.1", st)
      else
        let diagrams := match get (Some parsed) "diagrams" with
                        | Some (Some (JArr l)) => l
                        | _ => [] (* not an array: treated as empty *)
                        end in
        match js_to_string (length_prop markdown) with
        | None => (internal_error, st)
        | Some _ =>
        let '(o, st1) := validateAndFixDiagrams E diagrams 2 st in
        match o with
        | None => (internal_error, st1)
        | Some validated =>
            match assemble markdown validated with
            | Some finalMarkdown => (Reply200 finalMarkdown, st1)
            | None => (internal_error, st1)
            end
        end
        end
  end.

(** The same handler in [src/backend/src/index.js], which rejects a
    response whose [diagrams] is not an array. *)
Definition analyze_parsed_v0 (E : env) (parsed : json) : M reply := fun st =>
  match get (Some parsed) "markdown", get (Some parsed) "diagrams" with
  | Some markdown, Some diags =>
      match diags with
      | Some (JArr diagrams) =>
          if negb (truthy markdown) then
            (ReplyError 502 "Invalid response structure from GPT-5.1", st)
          else
            let '(o, st1) := validateAndFixDiagrams E diagrams 2 st in
            match o with
            | None => (internal_error, st1)
            | Some validated =>
                match assemble markdown validated with
                | Some finalMarkdown => (Reply200 finalMarkdown, st1)
                | None => (internal_error, st1)
                end
            end
      | _ => (ReplyError 502 "Invalid response structure from GPT-5.1", st)
      end
  | _, _ => (internal_error, st)
  end.

(** ** Vocabulary of the properties *)

(** The kinds of the validator calls recorded in a trace. *)
Fixpoint validator_calls (l : list event) : list vkind :=
  match l with
  | [] => []
  | EvValidate k _ _ :: r => k :: validator_calls r
  | _ :: r => validator_calls r
  end.

Definition repair_count (l : list event) : nat := List.length (filter is_repair l).

(** The text produced by the most recent repair call of a trace. *)
Fixpoint last_repair (l : list event) : option (option string) :=
  match l with
  | [] => None
  | EvRepair _ _ f :: _ => Some f
  | _ :: r => last_repair r
  end.

(** The outcome of the most recent validator call of a trace. *)
Fixpoint last_validation (l : list event) : option outcome :=
  match l with
  | [] => None
  | EvValidate _ _ o :: _ => Some o
  | _ :: r => last_validation r
  end.

(** A JavaScript value that converts to a string without throwing. *)
Definition printable (v : jsval) : Prop := js_to_string v <> None.

(** The entries of [diagrams] processed one after the other, the [i]-th
    entry in the state left by the previous ones. *)
Inductive processed (E : env) (maxRetries : nat)
  : nat -> list json -> state -> list diagram_result -> state -> Prop :=
| processed_nil i st : processed E maxRetries i [] st [] st
| processed_cons i d ds st r st1 rs st2 :
    process_diagram E maxRetries i d st = (Some r, st1) ->
    processed E maxRetries (S i) ds st1 rs st2 ->
    processed E maxRetries i (d :: ds) st (r :: rs) st2.

(** Envelopes of the shape the OpenAI SDK returns: [output] absent, [null]
    or an array of objects whose [content] is absent, [null] or an array of
    objects with a string (or absent, or [null]) [text]; [choices] absent,
    [null] or an array of objects whose [message] is absent, [null] or an
    object with a string (or absent, or [null]) [content]. *)
Definition str_field_ok (v : option json) : bool :=
  match v with
  | None | Some JNull | Some (JStr _) => true
  | _ => false
  end.

Definition str_field (v : option json) : string :=
  match v with
  | Some (JStr s) => s
  | _ => ""
  end.

Definition chunk_ok (c : json) : bool :=
  match c with JObj fs => str_field_ok (assoc "text" fs) | _ => false end.

Definition node_ok (n : json) : bool :=
  match n with
  | JObj fs =>
      match assoc "content" fs with
      | None | Some JNull => true
      | Some (JArr cs) => forallb chunk_ok cs
      | _ => false
      end
  | _ => false
  end.

Definition choice_ok (c : json) : bool :=
  match c with
  | JObj fs =>
      match assoc "message" fs with
      | None | Some JNull => true
      | Some (JObj ms) => str_field_ok (assoc "content" ms)
      | _ => false
      end
  | _ => false
  end.

Definition envelope_ok (fs : list (string * json)) : bool :=
  match assoc "output" fs with
  | None | Some JNull =>
      match assoc "choices" fs with
      | None | Some JNull => true
      | Some (JArr cs) => forallb choice_ok cs
      | _ => false
      end
  | Some (JArr ns) => forallb node_ok ns
  | _ => false
  end.

(** The text of a content chunk. *)
Definition chunk_string (c : json) : string :=
  match c with JObj cf => str_field (assoc "text" cf) | _ => "" end.

(** The texts of an output node's chunks. *)
Definition node_texts (n : json) : list string :=
  match n with
  | JObj fs =>
      match assoc "content" fs with
      | Some (JArr cs) => map chunk_string cs
      | _ => []
      end
  | _ => []
  end.

Definition choice_content (c : json) : string :=
  match c with
  | JObj fs =>
      match assoc "message" fs with
      | Some (JObj ms) => str_field (assoc "content" ms)
      | _ => ""
      end
  | _ => ""
  end.

Definition nonempty (s : string) : bool := negb (String.eqb s "").

(** A string of decimal digits: the slot of a placeholder that the
    cleanup pattern [\d+] recognises. *)
Fixpoint all_digits (s : string) : bool :=
  match s with
  | EmptyString => true
  | String c r => is_digit c && all_digits r
  end.

Fixpoint no_dollar (s : string) : bool :=
  match s with
  | EmptyString => true
  | String c r => negb (Ascii.eqb c "$"%char) && no_dollar r
  end.

(** The number of positions of [s] at which [p] starts. *)
Fixpoint occurrences (p s : string) : nat :=
  match s with
  | EmptyString => 0
  | String _ r => (if starts_with p s then 1 else 0) + occurrences p r
  end.

(** In [assemble], a result other than the one whose placeholder
    [{{DIAGRAM_pos}}] is followed: its slot index prints as a run of
    digits other than [pos], and its code prints without a ['$'] and
    without that placeholder. *)
Definition other_result (pos : string) (d : diagram_result) : Prop :=
  exists pd cd,
    js_to_string (r_originalPosition d) = Some pd /\ all_digits pd = true /\ pd <> pos /\
    js_to_string (r_code d) = Some cd /\ no_dollar cd = true /\
    includes cd (placeholder pos) = false.

(** No match of [p] starting in a non-empty text runs into [z]. *)
Definition guards (z p : string) : Prop :=
  forall w, w <> "" -> starts_with p (w ++ z) = starts_with p w.

(** No match of [p] starts inside [s]: searching [s ++ y] amounts to
    searching [y]. *)
Definition skips (s p : string) : Prop :=
  forall y, index_of (s ++ y) p = option_map (Nat.add (String.length s)) (index_of y p) /\
            occurrences p (s ++ y) = occurrences p y.

(** A diagram entry: an object whose type, code and position convert to
    strings. *)
Definition entry_ok (d : json) : Prop :=
  match d with
  | JObj fs =>
      printable (assoc "type" fs) /\ printable (assoc "code" fs) /\ printable (assoc "position" fs)
  | _ => False
  end.

(** A result that the assembler can render: its code and its slot convert
    to strings. *)
Definition result_ok (r : diagram_result) : Prop :=
  printable (r_code r) /\ printable (r_originalPosition r).

(** ** Sample environments *)

Definition reply_with (text : string) : model_reply :=
  ModelResponse (JObj [("output", JArr [JObj [("content", JArr [JObj [("text", JStr text)]])]])]).

(** Mermaid accepts exactly ["graph TD; A-->B"]; the PlantUML server finds
    no error; repairs answer with that graph in a fence. *)
Definition demo_env : env := {|
  mermaid_parse := fun s => if String.eqb s "graph TD; A-->B" then None else Some "Parse error";
  plantuml_encode := fun s => s;
  fetch_txt := fun _ _ => FetchResponse true 200 "OK" "ok";
  responses_create := fun _ _ => reply_with ("```mermaid" ++ nl ++ "graph TD; A-->B" ++ nl ++ "```")
|}.

(** Every diagram is rejected; repairs answer ["graph LR"]. *)
Definition rejecting_env : env := {|
  mermaid_parse := fun _ => Some "Parse error";
  plantuml_encode := fun s => s;
  fetch_txt := fun _ _ => FetchResponse true 200 "OK" "Syntax Error?";
  responses_create := fun _ _ => reply_with "graph LR"
|}.

(** Every diagram is rejected; the OpenAI API is unreachable. *)
Definition offline_env : env := {|
  mermaid_parse := fun _ => Some "Parse error";
  plantuml_encode := fun s => s;
  fetch_txt := fun _ _ => FetchThrow "fetch failed";
  responses_create := fun _ _ => ModelThrow
|}.

Definition st0 : state := {| mermaid_initialized := false; trace := [] |}.

(** ** The request handler from the upload *)

(** The outcome of [JSON.parse] or [jsonrepair]: a value, or the message
    of the error it throws. *)
Inductive parse_result (A : Type) : Type :=
| Parsed (a : A)
| ParseError (message : string).
Arguments Parsed {A} a.
Arguments ParseError {A} message.

(** What the handler reads besides the diagram services: the
    [OPENAI_API_KEY] variable, the analysis call of
    [openai.responses.create] (given the prompt), [JSON.parse] and
    [jsonrepair]. *)
Record host : Type := {
  openai_api_key : option string;
  analysis_create : string -> model_reply;
  json_parse : string -> parse_result json;
  jsonrepair : string -> parse_result string
}.

(** [req.file]: the original name and the buffer decoded as UTF-8. *)
Record upload : Type := {
  originalname : string;
  file_text : string
}.

(** [try { JSON.parse(t) } catch { try { JSON.parse(jsonrepair(t)) } catch (e2) ... }] *)
Definition parse_with_repair (H : host) (jsonText : string) : parse_result json :=
  match json_parse H jsonText with
  | Parsed p => Parsed p
  | ParseError _ =>
      match jsonrepair H jsonText with
      | Parsed repaired => json_parse H repaired
      | ParseError m => ParseError m
      end
  end.

(** [app.post('/analyze')] of [src/unnamed/part_000], from the upload. *)
Definition analyze_request (H : host) (E : env) (file : option upload) : M reply := fun st =>
  if negb (truthy (option_map JStr (openai_api_key H))) then
    (ReplyError 500 "OpenAI key missing on server.", st)
  else
    match file with
    | None => (ReplyError 400 "No code file received.", st)
    | Some f =>
        let prompt := buildPrompt (originalname f) (file_text f) in
        match analysis_create H prompt with
        | ModelThrow => (internal_error, st)
        | ModelResponse response =>
            match extractText (Some response) with
            | None => (internal_error, st)
            | Some jsonText =>
                if String.eqb jsonText "" then
                  (ReplyError 502 "No response returned from GPT-5.1", st)
                else
                  match parse_with_repair H jsonText with
                  | Parsed parsed => analyze_parsed E parsed st
                  | ParseError m =>
                      (ReplyError 502 ("Invalid JSON response from GPT-5.1: " ++ m), st)
                  end
            end
        end
    end.

(** ** Request ids and CORS origins *)

Definition digit36 (d : nat) : ascii :=
  ascii_of_nat (if Nat.ltb d 10 then 48 + d else 87 + d).

(** [n.toString(36)] for a non-negative integer [n], most significant
    digit first; [fuel] bounds the number of digits. *)
Fixpoint to_base36_fuel (fuel n : nat) : string :=
  match fuel with
  | O => EmptyString
  | S f =>
      if Nat.ltb n 36 then String (digit36 n) EmptyString
      else to_base36_fuel f (n / 36) ++ String (digit36 (n mod 36)) EmptyString
  end.

(** [const requestId = Date.now().toString(36)] *)
Definition requestId (now : nat) : string := to_base36_fuel (S now) now.

(** [parseInt(s, 36)] on lower-case base-36 digits, used to read an id
    back. *)
Definition digit36_value (c : ascii) : nat :=
  let n := nat_of_ascii c in if Nat.ltb n 58 then n - 48 else n - 87.

Fixpoint parse36_from (v : nat) (s : string) : nat :=
  match s with
  | EmptyString => v
  | String c r => parse36_from (v * 36 + digit36_value c) r
  end.

Definition is_base36_digit (c : ascii) : bool :=
  let n := nat_of_ascii c in (Nat.leb 48 n && Nat.leb n 57) || (Nat.leb 97 n && Nat.leb n 122).

(** [s.split(sep)] for a one-character separator. *)
Fixpoint split_on (sep : ascii) (s : string) : list string :=
  match s with
  | EmptyString => [EmptyString]
  | String c r =>
      if Ascii.eqb c sep then EmptyString :: split_on sep r
      else match split_on sep r with
           | h :: t => String c h :: t
           | [] => [String c EmptyString]
           end
  end.

(** [process.env.CLIENT_ORIGIN?.split(',').map((origin) => origin.trim()) ?? ['http://localhost:3000']] *)
Definition clientOrigins (CLIENT_ORIGIN : option string) : list string :=
  match CLIENT_ORIGIN with
  | None => ["http://localhost:3000"]
  | Some s => map trim (split_on "," s)
  end.

(** A text made of [\w] characters only. *)
Fixpoint all_word (s : string) : bool :=
  match s with
  | EmptyString => true
  | String c r => is_word_char c && all_word r
  end.

Fixpoint count_char (c : ascii) (s : string) : nat :=
  match s with
  | EmptyString => 0
  | String d r => (if Ascii.eqb d c then 1 else 0) + count_char c r
  end.

(** A text all of whose characters satisfy [p]. *)
Fixpoint all_chars (p : ascii -> bool) (s : string) : bool :=
  match s with
  | EmptyString => true
  | String c r => p c && all_chars p r
  end.

(** The most recent validator call of a trace: its kind, argument and
    outcome. *)
Fixpoint last_check (l : list event) : option (vkind * jsval * outcome) :=
  match l with
  | [] => None
  | EvValidate k c o :: _ => Some (k, c, o)
  | _ :: r => last_check r
  end.

(** * Properties *)

(** ** Strings *)

Lemma str_app_assoc (a b c : string) : (a ++ b) ++ c = a ++ b ++ c.
Proof. induction a as [|x a IH]; simpl; [reflexivity | now rewrite IH]. Qed.

Lemma all_chars_app (p : ascii -> bool) (s t : string) :
  all_chars p (s ++ t) = all_chars p s && all_chars p t.
Proof. induction s as [|c s IH]; simpl; [reflexivity | now rewrite IH, andb_assoc]. Qed.

Lemma str_app_nil_r (a : string) : a ++ "" = a.
Proof. induction a as [|x a IH]; simpl; [reflexivity | now rewrite IH]. Qed.

Lemma str_length_app (a b : string) : String.length (a ++ b) = String.length a + String.length b.
Proof. induction a as [|x a IH]; simpl; [reflexivity | now rewrite IH]. Qed.

Lemma substring_all (m : nat) (s : string) :
  String.length s <= m -> substring 0 m s = s.
Proof.
  revert m; induction s as [|c s IH]; intros [|m] H; simpl in *; try reflexivity; try lia.
  rewrite IH; [reflexivity | lia].
Qed.

Lemma substring_take_drop (n : nat) (s : string) :
  substring 0 n s ++ substring n (String.length s - n) s = s.
Proof.
  revert n; induction s as [|c s IH]; intros [|n]; simpl; try reflexivity.
  - rewrite substring_all; [reflexivity | lia].
  - now rewrite IH.
Qed.

Lemma substring_take_length (n : nat) (s : string) :
  String.length (substring 0 n s) = Nat.min n (String.length s).
Proof.
  revert n; induction s as [|c s IH]; intros [|n]; simpl; try reflexivity.
  now rewrite IH.
Qed.

(** ** C9: the prompt carries the first 12,000 characters of the file *)

(** C9. The instruction payload built by [buildPrompt] is a text fixed by
    the file name, followed by the first 12,000 characters of the file
    content (all of it when shorter), followed by a fixed text: content at
    index 12,000 or beyond does not enter the prompt. *)
Theorem buildPrompt_keeps_first_12000 (filename : string) :
  exists pre suf, forall code,
    buildPrompt filename code = pre ++ slice0 12000 code ++ suf /\
    slice0 12000 code ++ substring 12000 (String.length code - 12000) code = code /\
    String.length (slice0 12000 code) = Nat.min 12000 (String.length code).
Proof.
  exists ("File name: " ++ filename ++ nl ++ "" ++ nl
           ++ "Analyze this code file and produce function-by-function documentation." ++ nl
           ++ "For each function, provide metadata (parameters, return type, side effects) and a narrative explanation of its logic flow." ++ nl
           ++ "Write the narrative as if telling a story - abstract the implementation into logical concepts." ++ nl
           ++ "Include diagrams (flowcharts, sequence diagrams) when they help visualize complex logic flows." ++ nl
           ++ "Use the JSON structure specified in the system prompt." ++ nl
           ++ "" ++ nl ++ "Code:" ++ nl ++ "```" ++ nl).
  exists (nl ++ "```").
  intros code; split; [|split].
  - unfold buildPrompt; cbn [join_with].
    repeat rewrite str_app_assoc; reflexivity.
  - apply substring_take_drop.
  - apply substring_take_length.
Qed.

(** ** C5: empty diagram texts *)

(** C5. For a text that is empty after trimming, [validateMermaid] returns
    [{valid: false, error: 'Empty Mermaid definition'}] and
    [validatePlantUML] returns [{valid: false, error: 'Empty PlantUML
    definition'}] without any HTTP request (the state is untouched);
    [validateMermaid] sends no network request on any input. *)
Theorem empty_definition_rejected (E : env) (s : string) (st : state) :
  trim s = "" ->
  validateMermaid E (Some (JStr s)) st =
    (Invalid "Empty Mermaid definition",
     {| mermaid_initialized := true; trace := trace st |}) /\
  validatePlantUML E (Some (JStr s)) st = (Invalid "Empty PlantUML definition", st) /\
  (forall d st', exists new,
      trace (snd (validateMermaid E d st')) = (new ++ trace st')%list /\
      forallb (fun e => negb (is_network e)) new = true).
Proof.
  intros Hs; split; [|split].
  - unfold validateMermaid; simpl; now rewrite Hs.
  - unfold validatePlantUML; now rewrite Hs.
  - intros d st'; unfold validateMermaid; simpl.
    destruct d as [[| | | s' | |]|]; simpl; try (exists []; split; reflexivity).
    destruct (String.eqb (trim s') ""); simpl.
    + exists []; split; reflexivity.
    + eexists [_]; split; reflexivity.
Qed.

Lemma empty_definition_rejected_witness :
  validatePlantUML demo_env (Some (JStr " ")) st0 = (Invalid "Empty PlantUML definition", st0).
Proof.
  exact (proj1 (proj2 (empty_definition_rejected demo_env " " st0 eq_refl))).
Defined.

(** ** C3: unknown diagram types *)

Lemma classify_unknown (t : string) :
  ~ In t ["mermaid"; "plantuml"; "puml"; "uml"] -> classify (Some (JStr t)) = None.
Proof.
  intros H; unfold classify.
  destruct (String.eqb_spec t "mermaid"); [subst; simpl in H; tauto|].
  destruct (String.eqb_spec t "plantuml"); [subst; simpl in H; tauto|].
  destruct (String.eqb_spec t "puml"); [subst; simpl in H; tauto|].
  destruct (String.eqb_spec t "uml"); [subst; simpl in H; tauto|].
  reflexivity.
Qed.

(** C3. A diagram entry whose declared type is a string other than
    ['mermaid'], ['plantuml'], ['puml'] and ['uml'] yields
    [{valid: true, code: <the entry's code, unchanged>, error: null}] and
    leaves the state untouched: no validator call and no repair call. *)
Theorem unknown_type_passes_through (E : env) (maxRetries i : nat)
    (fs : list (string * json)) (t : string) (st : state) :
  assoc "type" fs = Some (JStr t) ->
  ~ In t ["mermaid"; "plantuml"; "puml"; "uml"] ->
  process_diagram E maxRetries i (JObj fs) st =
    (Some {| r_type := Some (JStr t);
             r_code := assoc "code" fs;
             r_originalPosition := nullish (assoc "position" fs) (Some (JNum (Z.of_nat i)));
             r_valid := true;
             r_error := None |}, st).
Proof.
  intros Hty Hunk.
  unfold process_diagram; simpl get; rewrite Hty; cbn [js_to_string json_to_string].
  cbn [fix_loop Nat.leb]; rewrite (classify_unknown t Hunk); reflexivity.
Qed.

Lemma unknown_type_passes_through_witness :
  process_diagram demo_env 2 0 (JObj [("type", JStr "graphviz"); ("code", JStr "digraph {}")]) st0 =
    (Some {| r_type := Some (JStr "graphviz");
             r_code := Some (JStr "digraph {}");
             r_originalPosition := Some (JNum 0);
             r_valid := true;
             r_error := None |}, st0).
Proof.
  apply (unknown_type_passes_through demo_env 2 0
           [("type", JStr "graphviz"); ("code", JStr "digraph {}")] "graphviz" st0).
  - reflexivity.
  - simpl; intuition discriminate.
Defined.

(** ** C1: a missing or malformed diagram list *)

(** C1 (counterexample). A parsed object whose [markdown] field is present
    but empty fails the request with status 502, although [diagrams] is
    absent. *)
Lemma analyze_empty_markdown_fails :
  analyze_parsed demo_env (JObj [("markdown", JStr "")]) st0 =
    (ReplyError 502 "Missing markdown in response from GPT-5.1", st0).
Proof. reflexivity. Qed.

(** C1 (amended). For a parsed object whose [markdown] is a non-empty
    string and whose [diagrams] is absent or not an array, the request
    succeeds without any validation or repair call, and the returned
    document is the markdown after the placeholder cleanup. *)
Theorem analyze_without_diagram_list (E : env) (fs : list (string * json))
    (m : string) (st : state) :
  assoc "markdown" fs = Some (JStr m) ->
  m <> "" ->
  (forall l, assoc "diagrams" fs <> Some (JArr l)) ->
  analyze_parsed E (JObj fs) st = (Reply200 (cleanup m), st).
Proof.
  intros Hm Hne Hd.
  unfold analyze_parsed; simpl get; rewrite Hm; simpl truthy.
  apply String.eqb_neq in Hne; rewrite Hne; simpl negb; cbv iota.
  destruct (assoc "diagrams" fs) as [[| | | | l |]|] eqn:Hdi;
    try (exfalso; exact (Hd l eq_refl)); reflexivity.
Qed.

Lemma analyze_without_diagram_list_witness :
  analyze_parsed demo_env
    (JObj [("markdown", JStr "intro {{DIAGRAM_0}} outro"); ("diagrams", JStr "none")]) st0 =
    (Reply200 "intro  outro", st0).
Proof.
  apply (analyze_without_diagram_list demo_env
           [("markdown", JStr "intro {{DIAGRAM_0}} outro"); ("diagrams", JStr "none")]
           "intro {{DIAGRAM_0}} outro" st0).
  - reflexivity.
  - discriminate.
  - intros l; discriminate.
Defined.

(** The handler of [src/backend/src/index.js] answers 502 instead when
    [diagrams] is not an array. *)
Lemma analyze_v0_rejects_missing_diagrams (E : env) (fs : list (string * json)) (st : state) :
  (forall l, assoc "diagrams" fs <> Some (JArr l)) ->
  analyze_parsed_v0 E (JObj fs) st =
    (ReplyError 502 "Invalid response structure from GPT-5.1", st).
Proof.
  intros Hd; unfold analyze_parsed_v0; simpl get.
  destruct (assoc "diagrams" fs) as [[| | | | l |]|] eqn:Hdi;
    try (exfalso; exact (Hd l eq_refl)); reflexivity.
Qed.

(** ** C4: the response extractor *)

(** C4 (counterexample). An envelope whose [output] holds a [null] node
    makes [extractText] throw. *)
Lemma extractText_throws_on_null_node :
  extractText (Some (JObj [("output", JArr [JNull])])) = None.
Proof. reflexivity. Qed.

Lemma sequence_opt_map_some {A B} (f : A -> B) (l : list A) :
  sequence_opt (map (fun x => Some (f x)) l) = Some (map f l).
Proof. induction l as [|x l IH]; simpl; [reflexivity | now rewrite IH]. Qed.

Lemma js_join_strings (sep : string) (l : list string) :
  js_join sep (map (fun s => Some (JStr s)) l) = Some (join_with sep l).
Proof.
  unfold js_join; rewrite map_map; simpl.
  now rewrite (sequence_opt_map_some (fun s => s)), map_id.
Qed.

Lemma filter_truthy_strings (l : list string) :
  filter truthy (map (fun s => Some (JStr s)) l) = map (fun s => Some (JStr s)) (filter nonempty l).
Proof.
  induction l as [|s l IH]; simpl; [reflexivity|].
  unfold nonempty; destruct (negb (String.eqb s "")); simpl; now rewrite IH.
Qed.

Lemma choice_text_ok (c : json) :
  choice_ok c = true -> choice_text (Some c) = Some (Some (JStr (choice_content c))).
Proof.
  destruct c as [| | | | |fs]; try discriminate; simpl.
  unfold choice_text, choice_content; simpl.
  destruct (assoc "message" fs) as [[| | | | |ms]|]; try discriminate; try reflexivity.
  simpl; destruct (assoc "content" ms) as [[| | | | |]|]; try discriminate; reflexivity.
Qed.

Lemma chunk_text_ok (c : json) :
  chunk_ok c = true ->
  chunk_text (Some c) = Some (Some (JStr (chunk_string c))).
Proof.
  destruct c as [| | | | |fs]; try discriminate; simpl.
  unfold chunk_text; simpl.
  destruct (assoc "text" fs) as [[| | | | |]|]; try discriminate; reflexivity.
Qed.

Lemma node_pieces_ok (n : json) :
  node_ok n = true ->
  exists cs, (match get (Some n) "content" with
              | Some c => Some (flat_piece c)
              | None => None
              end) = Some (map Some cs) /\ forallb chunk_ok cs = true /\
             node_texts n = map chunk_string cs.
Proof.
  destruct n as [| | | | |fs]; try discriminate; simpl; unfold node_texts.
  destruct (assoc "content" fs) as [[| | | |cs|]|]; try discriminate; intros H.
  - exists []; repeat split.
  - exists cs; repeat split; assumption.
  - exists []; repeat split.
Qed.

Lemma get_obj (fs : list (string * json)) (p : string) :
  get (Some (JObj fs)) p = Some (assoc p fs).
Proof. reflexivity. Qed.

Lemma nodes_pieces_ok (ns : list json) :
  forallb node_ok ns = true ->
  exists cs,
    sequence_opt
      (map (fun node => match get (Some node) "content" with
                        | Some c => Some (flat_piece c)
                        | None => None
                        end) ns) = Some (map (map Some) cs) /\
    forallb chunk_ok (concat cs) = true /\
    flat_map node_texts ns = map chunk_string (concat cs).
Proof.
  induction ns as [|n ns IH]; intros Hns.
  - exists []; repeat split.
  - cbn [forallb] in Hns; apply andb_prop in Hns as [Hn Hns].
    destruct (node_pieces_ok n Hn) as (c & Hc & Hok & Ht).
    destruct (IH Hns) as (cs & Hs & Hoks & Hts).
    exists (c :: cs); cbn [map sequence_opt concat flat_map].
    rewrite Hc, Hs, forallb_app, Hok, Hoks, Ht, Hts, map_app.
    repeat split.
Qed.

(** C4 (amended). [extractText] does not throw on any envelope of the
    shape the SDK returns ([envelope_ok]): with an [output] array it returns
    the trimmed newline-join of the non-empty chunk texts, else with a
    [choices] array the trimmed newline-join of the message contents, else
    the empty string. *)
Theorem extractText_sdk_envelopes (fs : list (string * json)) :
  envelope_ok fs = true ->
  extractText (Some (JObj fs)) =
    Some (match assoc "output" fs with
          | Some (JArr ns) => trim (join_with nl (filter nonempty (flat_map node_texts ns)))
          | _ =>
              match assoc "choices" fs with
              | Some (JArr cs) => trim (join_with nl (map choice_content cs))
              | _ => ""
              end
          end).
Proof.
  unfold envelope_ok, extractText; rewrite !get_obj; simpl truthy; simpl negb; cbv iota.
  destruct (assoc "output" fs) as [[| | | |ns|]|]; try discriminate; simpl truthy; cbv iota.
  - (* output null *)
    destruct (assoc "choices" fs) as [[| | | |cs|]|]; try discriminate; simpl; try reflexivity.
    intros Hcs.
    rewrite (map_ext_in _ (fun c => Some (Some (JStr (choice_content c)))) cs).
    + rewrite (sequence_opt_map_some (fun c => Some (JStr (choice_content c)))).
      rewrite <- (map_map choice_content (fun s => Some (JStr s))), js_join_strings.
      reflexivity.
    + intros c Hc; apply choice_text_ok; rewrite forallb_forall in Hcs; auto.
  - (* output array *)
    intros Hns.
    destruct (nodes_pieces_ok ns Hns) as (cs & Hs & Hok & Ht).
    rewrite Hs, Ht, <- concat_map, map_map.
    rewrite (map_ext_in (fun c => chunk_text (Some c))
               (fun c => Some (Some (JStr (chunk_string c)))) (concat cs)).
    + rewrite (sequence_opt_map_some (fun c => Some (JStr (chunk_string c)))).
      rewrite <- (map_map chunk_string (fun s => Some (JStr s))).
      rewrite filter_truthy_strings, js_join_strings; reflexivity.
    + intros c Hc; apply chunk_text_ok; rewrite forallb_forall in Hok; auto.
  - (* output absent *)
    destruct (assoc "choices" fs) as [[| | | |cs|]|]; try discriminate; simpl; try reflexivity.
    intros Hcs.
    rewrite (map_ext_in _ (fun c => Some (Some (JStr (choice_content c)))) cs).
    + rewrite (sequence_opt_map_some (fun c => Some (JStr (choice_content c)))).
      rewrite <- (map_map choice_content (fun s => Some (JStr s))), js_join_strings.
      reflexivity.
    + intros c Hc; apply choice_text_ok; rewrite forallb_forall in Hcs; auto.
Qed.

Lemma extractText_sdk_envelopes_witness :
  extractText (Some (JObj [("output", JArr [JObj [("content", JArr [JObj [("text", JStr " {} ")]])]])])) =
    Some "{}".
Proof.
  exact (extractText_sdk_envelopes
           [("output", JArr [JObj [("content", JArr [JObj [("text", JStr " {} ")]])]])] eq_refl).
Defined.

(** ** Traces of the validators, the repair call and the loop *)

Lemma validator_trace (E : env) (k : vkind) (c : jsval) (st : state) :
  exists new, trace (snd (validator E k c st)) = (new ++ trace st)%list /\
              validator_calls new = [] /\ repair_count new = 0.
Proof.
  destruct k; simpl.
  - unfold validateMermaid; simpl.
    destruct c as [[| | | s | |]|]; simpl; try (exists []; repeat split; reflexivity).
    destruct (String.eqb (trim s) ""); simpl.
    + exists []; repeat split.
    + eexists [_]; repeat split.
  - unfold validatePlantUML.
    destruct c as [[| | | s | |]|]; simpl; try (exists []; repeat split; reflexivity).
    destruct (String.eqb (trim s) ""); simpl; [exists []; repeat split|].
    destruct (fetch_txt E _ _) as [msg|ok status stt body]; simpl;
      [eexists [_]; repeat split|].
    destruct (negb ok); [eexists [_]; repeat split|].
    destruct (has_error_marker body); simpl; eexists [_]; repeat split.
Qed.

Lemma run_validator_trace (E : env) (k : vkind) (c : jsval) (st : state) :
  exists new, trace (snd (run_validator E k c st)) =
                EvValidate k c (fst (run_validator E k c st)) :: (new ++ trace st)%list /\
              validator_calls new = [] /\ repair_count new = 0.
Proof.
  unfold run_validator.
  destruct (validator_trace E k c st) as (new & Ht & Hv & Hr).
  destruct (validator E k c st) as [o st'] eqn:Hva; simpl in *.
  exists new; rewrite Ht; repeat split; assumption.
Qed.

Lemma repair_call_trace (E : env) (ty c : jsval) (e : string) (st : state) :
  (fst (repair_call E ty c e st) = None /\ snd (repair_call E ty c e st) = st) \/
  trace (snd (repair_call E ty c e st)) = EvRepair c e (fst (repair_call E ty c e st)) :: trace st.
Proof.
  unfold repair_call.
  destruct (js_to_string ty), (js_to_string c); simpl; auto.
Qed.

Lemma repair_count_app (l1 l2 : list event) :
  repair_count (l1 ++ l2) = repair_count l1 + repair_count l2.
Proof. unfold repair_count; now rewrite filter_app, length_app. Qed.

Lemma validator_calls_app (l1 l2 : list event) :
  validator_calls (l1 ++ l2) = (validator_calls l1 ++ validator_calls l2)%list.
Proof. induction l1 as [|[k1 c1 o1|src|url|c1 e1 f1] l1 IH]; simpl; try rewrite IH; reflexivity. Qed.

Lemma last_validation_app (l1 l2 : list event) (o : outcome) :
  last_validation l1 = Some o -> last_validation (l1 ++ l2) = Some o.
Proof. induction l1 as [|[k1 c1 o1|src|url|c1 e1 f1] l1 IH]; simpl; try discriminate; auto. Qed.

Lemma last_repair_app_none (l1 l2 : list event) :
  repair_count l1 = 0 -> last_repair (l1 ++ l2) = last_repair l2.
Proof.
  unfold repair_count; induction l1 as [|[k1 c1 o1|src|url|c1 e1 f1] l1 IH]; simpl; try discriminate; auto.
Qed.

Lemma last_repair_app (l1 l2 : list event) (f : option string) :
  last_repair l1 = Some f -> last_repair (l1 ++ l2) = Some f.
Proof. induction l1 as [|[k1 c1 o1|src|url|c1 e1 f1] l1 IH]; simpl; try discriminate; auto. Qed.

Lemma no_repair_not_in (l : list event) (c : jsval) (e : string) (f : option string) :
  repair_count l = 0 -> ~ In (EvRepair c e f) l.
Proof.
  unfold repair_count; induction l as [|ev l IH]; simpl; intros H Hin; [exact Hin|].
  destruct Hin as [->|Hin]; simpl in H; [discriminate|].
  destruct ev; simpl in H; try discriminate; exact (IH H Hin).
Qed.

Lemma fix_loop_step (E : env) (fuel : nat) (ty : jsval) (maxRetries attempts : nat)
    (currentCode : jsval) (lastError : option string) (st : state) :
  fix_loop E (S fuel) ty maxRetries attempts currentCode lastError st =
    if Nat.leb attempts maxRetries then
      match classify ty with
      | None => ((currentCode, true, lastError), st)
      | Some k =>
          let '(validation, st1) := run_validator E k currentCode st in
          match validation with
          | Valid => ((currentCode, true, lastError), st1)
          | Invalid e =>
              if Nat.ltb attempts maxRetries then
                let '(r, st2) := repair_call E ty currentCode e st1 in
                match r with
                | Some fixed => fix_loop E fuel ty maxRetries (S attempts) (Some (JStr fixed)) (Some e) st2
                | None => ((currentCode, false, Some e), st2)
                end
              else ((currentCode, false, Some e), st1)
          end
      end
    else ((currentCode, false, lastError), st).
Proof. reflexivity. Qed.

(** The loop on an entry of a known type calls only the validator of that
    type, at least once. *)
Lemma fix_loop_dispatch (E : env) (ty : jsval) (k : vkind) (maxRetries : nat) :
  classify ty = Some k ->
  forall fuel attempts c le st,
    exists new,
      trace (snd (fix_loop E fuel ty maxRetries attempts c le st)) = (new ++ trace st)%list /\
      Forall (eq k) (validator_calls new) /\
      (0 < fuel -> attempts <= maxRetries -> validator_calls new <> []).
Proof.
  intros Hk; induction fuel as [|fuel IH]; intros attempts c le st; simpl.
  - exists []; repeat split; [constructor | lia].
  - destruct (Nat.leb_spec attempts maxRetries) as [Ha|Ha];
      [|exists []; repeat split; [constructor | lia]].
    rewrite Hk.
    destruct (run_validator_trace E k c st) as (vnew & Hvt & Hvc & Hvr).
    destruct (run_validator E k c st) as [o st1] eqn:Hrv; simpl in Hvt.
    destruct o as [|e].
    + exists (EvValidate k c Valid :: vnew); simpl; rewrite Hvt, Hvc.
      repeat split; [repeat constructor | discriminate].
    + destruct (Nat.ltb attempts maxRetries).
      * destruct (repair_call_trace E ty c e st1) as [[Hn Hs]|Hrt];
          destruct (repair_call E ty c e st1) as [r st2] eqn:Hrc; simpl in *.
        -- subst r st2; exists (EvValidate k c (Invalid e) :: vnew); simpl; rewrite Hvt, Hvc.
           repeat split; [repeat constructor | discriminate].
        -- destruct r as [fixed|].
           ++ destruct (IH (S attempts) (Some (JStr fixed)) (Some e) st2) as (new2 & Ht2 & Hf2 & _).
              exists (new2 ++ [EvRepair c e (Some fixed); EvValidate k c (Invalid e)] ++ vnew)%list.
              rewrite Ht2, Hrt, Hvt, !validator_calls_app, Hvc; simpl.
              rewrite <- !app_assoc; simpl; split; [reflexivity|].
              split; [apply Forall_app; split; [assumption | repeat constructor]|].
              intros _ _ Hnil; destruct (validator_calls new2); discriminate.
           ++ exists (EvRepair c e None :: EvValidate k c (Invalid e) :: vnew); simpl.
              rewrite Hrt, Hvt, Hvc; repeat split; [repeat constructor | discriminate].
      * exists (EvValidate k c (Invalid e) :: vnew); simpl; rewrite Hvt, Hvc.
        repeat split; [repeat constructor | discriminate].
Qed.

(** ** Slot index and dispatch of an entry *)

Lemma process_diagram_obj (E : env) (maxRetries i : nat) (fs : list (string * json))
    (t : string) (st : state) :
  assoc "type" fs = Some (JStr t) ->
  process_diagram E maxRetries i (JObj fs) st =
    let '((currentCode, isValid, lastError), st') :=
      fix_loop E (S maxRetries) (Some (JStr t)) maxRetries 0 (assoc "code" fs) None st in
    (Some {| r_type := Some (JStr t);
             r_code := currentCode;
             r_originalPosition := nullish (assoc "position" fs) (Some (JNum (Z.of_nat i)));
             r_valid := isValid;
             r_error := if isValid then None else lastError |}, st').
Proof.
  intros Hty; unfold process_diagram; rewrite !get_obj, Hty; reflexivity.
Qed.

(** Counterexample to C8: an entry with [position: null] is put in the slot
    of its sequence index ([??] treats [null] as absent). *)
Lemma position_null_uses_index :
  assoc "position" [("type", JStr "graphviz"); ("code", JStr "x"); ("position", JNull)] = Some JNull /\
  exists r,
    fst (process_diagram demo_env 2 3
           (JObj [("type", JStr "graphviz"); ("code", JStr "x"); ("position", JNull)]) st0) = Some r /\
    r_originalPosition r = Some (JNum 3).
Proof. split; [reflexivity|]. eexists; split; reflexivity. Qed.

(** C8 (amended): the slot index of an entry is its [position] when that
    field is present and not [null] (so also when it is [0]), and its
    sequence index when the field is absent or [null]. An entry whose type
    is ["mermaid"] is checked by the Mermaid validator only, at least once;
    one whose type is ["plantuml"], ["puml"] or ["uml"] by the PlantUML
    validator only, at least once; any other type by neither. *)
Theorem slot_and_dispatch (E : env) (maxRetries i : nat) (fs : list (string * json))
    (t : string) (st : state) :
  assoc "type" fs = Some (JStr t) ->
  exists r st' new,
    process_diagram E maxRetries i (JObj fs) st = (Some r, st') /\
    trace st' = (new ++ trace st)%list /\
    r_originalPosition r =
      match assoc "position" fs with
      | None | Some JNull => Some (JNum (Z.of_nat i))
      | p => p
      end /\
    (t = "mermaid" -> validator_calls new <> [] /\ Forall (eq KMermaid) (validator_calls new)) /\
    (In t ["plantuml"; "puml"; "uml"] ->
       validator_calls new <> [] /\ Forall (eq KPlantUML) (validator_calls new)) /\
    (~ In t ["mermaid"; "plantuml"; "puml"; "uml"] -> validator_calls new = []).
Proof.
  intros Hty; rewrite (process_diagram_obj E maxRetries i fs t st Hty).
  destruct (classify (Some (JStr t))) as [k|] eqn:Hk.
  - destruct (fix_loop_dispatch E (Some (JStr t)) k maxRetries Hk (S maxRetries) 0
                (assoc "code" fs) None st) as (new & Ht & Hf & Hne).
    destruct (fix_loop E (S maxRetries) (Some (JStr t)) maxRetries 0 (assoc "code" fs) None st)
      as [[[c v] le] st'] eqn:Hfl; simpl in Ht.
    eexists _, st', new; split; [reflexivity|]; split; [exact Ht|]; split.
    { simpl; destruct (assoc "position" fs) as [[]|]; reflexivity. }
    assert (Hne' : validator_calls new <> []) by (apply Hne; lia).
    split; [|split].
    + intros ->; simpl in Hk; injection Hk as <-; auto.
    + intros Hin; simpl in Hin.
      destruct Hin as [<-|[<-|[<-|[]]]]; simpl in Hk; injection Hk as <-; auto.
    + intros Hunk; rewrite (classify_unknown t Hunk) in Hk; discriminate.
  - cbn [fix_loop Nat.leb]; rewrite Hk.
    eexists _, st, []; split; [reflexivity|]; split; [reflexivity|]; split.
    { simpl; destruct (assoc "position" fs) as [[]|]; reflexivity. }
    split; [|split].
    + intros ->; discriminate.
    + intros Hin; simpl in Hin.
      destruct Hin as [<-|[<-|[<-|[]]]]; discriminate.
    + intros _; reflexivity.
Qed.

Lemma slot_and_dispatch_witness :
  assoc "type" [("type", JStr "puml"); ("code", JStr "A->B"); ("position", JNum 0)] = Some (JStr "puml") /\
  exists r st' new,
    process_diagram demo_env 2 5
      (JObj [("type", JStr "puml"); ("code", JStr "A->B"); ("position", JNum 0)]) st0 = (Some r, st') /\
    trace st' = (new ++ trace st0)%list /\
    r_originalPosition r = Some (JNum 0) /\
    ("puml" = "mermaid" -> validator_calls new <> [] /\ Forall (eq KMermaid) (validator_calls new)) /\
    (In "puml" ["plantuml"; "puml"; "uml"] ->
       validator_calls new <> [] /\ Forall (eq KPlantUML) (validator_calls new)) /\
    (~ In "puml" ["mermaid"; "plantuml"; "puml"; "uml"] -> validator_calls new = []).
Proof.
  split; [reflexivity|].
  exact (slot_and_dispatch demo_env 2 5
           [("type", JStr "puml"); ("code", JStr "A->B"); ("position", JNum 0)] "puml" st0 eq_refl).
Defined.

(** ** Exhausting the retries *)

Lemma repair_call_logged (E : env) (ty c : jsval) (e : string) (st : state) :
  js_to_string ty <> None -> js_to_string c <> None ->
  trace (snd (repair_call E ty c e st)) = EvRepair c e (fst (repair_call E ty c e st)) :: trace st.
Proof.
  intros Ht Hc; unfold repair_call.
  destruct (js_to_string ty); [|congruence]; destruct (js_to_string c); [|congruence].
  reflexivity.
Qed.

Section Exhaustion.

Variable E : env.
Variable ty : jsval.
Variable k : vkind.
Variable maxRetries : nat.
Hypothesis Hk : classify ty = Some k.
Hypothesis Hty : js_to_string ty <> None.

(** The run of the loop from [attempts], described by the events it
    records: if none of its validations accepts and none of its repair
    calls fails, it ends invalid after [maxRetries - attempts] repair
    calls, with the text of the last one and the error of the last
    validation. *)
Lemma fix_loop_exhausts (j : nat) :
  forall attempts (c : string) le st,
    attempts <= maxRetries -> maxRetries - attempts <= j ->
    exists new,
      trace (snd (fix_loop E (S j) ty maxRetries attempts (Some (JStr c)) le st)) = (new ++ trace st)%list /\
      ((forall k' c' o, In (EvValidate k' c' o) new -> o <> Valid) ->
       (forall c' e f, In (EvRepair c' e f) new -> f <> None) ->
       exists c' e,
         fst (fix_loop E (S j) ty maxRetries attempts (Some (JStr c)) le st) = (Some (JStr c'), false, Some e) /\
         repair_count new = maxRetries - attempts /\
         last_validation new = Some (Invalid e) /\
         (attempts = maxRetries -> c' = c) /\
         (attempts < maxRetries -> last_repair new = Some (Some c'))).
Proof.
  induction j as [|j IH]; intros attempts c le st Ha Hj.
  all: rewrite fix_loop_step, (proj2 (Nat.leb_le _ _) Ha), Hk.
  all: destruct (run_validator_trace E k (Some (JStr c)) st) as (vnew & Hvt & Hvc & Hvr).
  all: destruct (run_validator E k (Some (JStr c)) st) as [o st1]; cbn [fst snd] in Hvt.
  all: destruct o as [|e];
         [exists (EvValidate k (Some (JStr c)) Valid :: vnew); split; [exact Hvt|];
          intros Hrej _; exfalso; exact (Hrej _ _ _ (or_introl eq_refl) eq_refl)|].
  - assert (attempts = maxRetries) as -> by lia; rewrite Nat.ltb_irrefl.
    exists (EvValidate k (Some (JStr c)) (Invalid e) :: vnew); split; [exact Hvt|].
    intros _ _; exists c, e; cbn [fst]; split; [reflexivity|].
    split; [unfold repair_count; cbn [filter is_repair]; fold (repair_count vnew); rewrite Hvr; lia|].
    split; [reflexivity|]; split; [reflexivity | lia].
  - destruct (Nat.ltb_spec attempts maxRetries) as [Hlt|Hge].
    + pose proof (repair_call_logged E ty (Some (JStr c)) e st1 Hty ltac:(discriminate)) as Hrt.
      destruct (repair_call E ty (Some (JStr c)) e st1) as [[f|] st2]; cbn [fst snd] in Hrt.
      * destruct (IH (S attempts) f (Some e) st2 ltac:(lia) ltac:(lia)) as (new2 & Ht2 & Himp).
        exists (new2 ++ [EvRepair (Some (JStr c)) e (Some f); EvValidate k (Some (JStr c)) (Invalid e)] ++ vnew)%list.
        split; [rewrite Ht2, Hrt, Hvt, <- app_assoc; reflexivity|].
        intros Hrej Hans.
        destruct Himp as (c' & e' & Hr2 & Hc2 & Hl2 & Heq2 & Hlt2);
          [intros k' c'' o Hin; apply (Hrej k' c''); apply in_or_app; left; exact Hin
          |intros c'' e'' f' Hin; apply (Hans c'' e''); apply in_or_app; left; exact Hin|].
        exists c', e'; split; [exact Hr2|].
        split; [rewrite !repair_count_app, Hc2, Hvr; unfold repair_count; simpl; lia|].
        split; [apply last_validation_app, Hl2|].
        split; [lia|].
        intros _; destruct (Nat.eq_dec (S attempts) maxRetries) as [Heq|Hne].
        -- rewrite last_repair_app_none by (rewrite Hc2; lia).
           rewrite (Heq2 Heq); reflexivity.
        -- apply last_repair_app, Hlt2; lia.
      * exists ([EvRepair (Some (JStr c)) e None; EvValidate k (Some (JStr c)) (Invalid e)] ++ vnew)%list.
        split; [cbn [snd]; rewrite Hrt, Hvt; reflexivity|].
        intros _ Hans; exfalso; exact (Hans _ _ _ (or_introl eq_refl) eq_refl).
    + assert (attempts = maxRetries) as -> by lia.
      exists (EvValidate k (Some (JStr c)) (Invalid e) :: vnew); split; [exact Hvt|].
      intros _ _; exists c, e; cbn [fst]; split; [reflexivity|].
      split; [unfold repair_count; cbn [filter is_repair]; fold (repair_count vnew); rewrite Hvr; lia|].
      split; [reflexivity|]; split; [reflexivity | lia].
Qed.

End Exhaustion.

(** C2: for an entry of a known type, the run of its repair loop records
    events [new]. If none of the validations in [new] accepts the text
    (the diagram fails validation at every attempt) and none of the repair
    calls in [new] fails, the loop ends after exactly [maxRetries] repair
    calls; the result is not valid, its code is the text returned by the
    last repair call and its error is the error of the last validation. *)
Theorem repair_loop_exhausts (E : env) (maxRetries i : nat) (fs : list (string * json))
    (t c : string) (k : vkind) (st : state) :
  assoc "type" fs = Some (JStr t) ->
  classify (Some (JStr t)) = Some k ->
  assoc "code" fs = Some (JStr c) ->
  0 < maxRetries ->
  exists r st' new,
    process_diagram E maxRetries i (JObj fs) st = (Some r, st') /\
    trace st' = (new ++ trace st)%list /\
    ((forall k' c' o, In (EvValidate k' c' o) new -> o <> Valid) ->
     (forall c' e f, In (EvRepair c' e f) new -> f <> None) ->
     repair_count new = maxRetries /\
     r_valid r = false /\
     (exists f, last_repair new = Some (Some f) /\ r_code r = Some (JStr f)) /\
     (exists e, last_validation new = Some (Invalid e) /\ r_error r = Some e)).
Proof.
  intros Hty Hk Hc Hm.
  rewrite (process_diagram_obj E maxRetries i fs t st Hty), Hc.
  destruct (fix_loop_exhausts E (Some (JStr t)) k maxRetries Hk ltac:(discriminate)
              maxRetries 0 c None st ltac:(lia) ltac:(lia)) as (new & Ht & Himp).
  destruct (fix_loop E (S maxRetries) (Some (JStr t)) maxRetries 0 (Some (JStr c)) None st)
    as [[[code v] le] st']; cbn [fst snd] in Ht, Himp.
  eexists _, st', new; split; [reflexivity|]; split; [exact Ht|].
  intros Hrej Hans; destruct (Himp Hrej Hans) as (c' & e & Hr & Hcnt & Hl & _ & Hlast).
  injection Hr as -> -> ->; cbn.
  rewrite Nat.sub_0_r in Hcnt; split; [exact Hcnt|]; split; [reflexivity|].
  split; [exists c'; split; [apply Hlast; lia | reflexivity]|].
  exists e; split; [exact Hl | reflexivity].
Qed.

Lemma repair_loop_exhausts_witness :
  exists r st' new,
    process_diagram rejecting_env 2 0 (JObj [("type", JStr "mermaid"); ("code", JStr "graph")]) st0 = (Some r, st') /\
    trace st' = (new ++ trace st0)%list /\
    ((forall k' c' o, In (EvValidate k' c' o) new -> o <> Valid) ->
     (forall c' e f, In (EvRepair c' e f) new -> f <> None) ->
     repair_count new = 2 /\
     r_valid r = false /\
     (exists f, last_repair new = Some (Some f) /\ r_code r = Some (JStr f)) /\
     (exists e, last_validation new = Some (Invalid e) /\ r_error r = Some e)).
Proof.
  apply (repair_loop_exhausts rejecting_env 2 0 [("type", JStr "mermaid"); ("code", JStr "graph")]
           "mermaid" "graph" KMermaid st0 eq_refl eq_refl eq_refl).
  lia.
Defined.

(** ** A failing repair call *)

Lemma fix_loop_repair_failure (E : env) (ty : jsval) (maxRetries : nat) :
  forall fuel attempts c le st,
    exists new,
      trace (snd (fix_loop E fuel ty maxRetries attempts c le st)) = (new ++ trace st)%list /\
      forall c0 e0, In (EvRepair c0 e0 None) new ->
        exists rest, new = EvRepair c0 e0 None :: rest /\
          fst (fix_loop E fuel ty maxRetries attempts c le st) = (c0, false, Some e0) /\
          last_validation rest = Some (Invalid e0).
Proof.
  induction fuel as [|fuel IH]; intros attempts c le st.
  { exists []; split; [reflexivity | intros ? ? []]. }
  rewrite fix_loop_step.
  destruct (Nat.leb attempts maxRetries); [|exists []; split; [reflexivity | intros ? ? []]].
  destruct (classify ty) as [k|]; [|exists []; split; [reflexivity | intros ? ? []]].
  destruct (run_validator_trace E k c st) as (vnew & Hvt & _ & Hvr).
  destruct (run_validator E k c st) as [o st1]; simpl in Hvt.
  assert (Hno : forall c0 e0, ~ In (EvRepair c0 e0 None) (EvValidate k c o :: vnew)).
  { intros c0 e0 [H|H]; [discriminate | exact (no_repair_not_in vnew c0 e0 None Hvr H)]. }
  destruct o as [|e].
  { exists (EvValidate k c Valid :: vnew); split; [exact Hvt|]. intros c0 e0 H; now apply Hno in H. }
  destruct (Nat.ltb attempts maxRetries).
  2:{ exists (EvValidate k c (Invalid e) :: vnew); split; [exact Hvt|].
      intros c0 e0 H; now apply Hno in H. }
  destruct (repair_call_trace E ty c e st1) as [[Hn Hs]|Hrt];
    destruct (repair_call E ty c e st1) as [r st2]; simpl in *.
  - subst r st2; exists (EvValidate k c (Invalid e) :: vnew); split; [exact Hvt|].
    intros c0 e0 H; now apply Hno in H.
  - destruct r as [fixed|].
    + destruct (IH (S attempts) (Some (JStr fixed)) (Some e) st2) as (new2 & Ht2 & H2).
      exists (new2 ++ [EvRepair c e (Some fixed)] ++ EvValidate k c (Invalid e) :: vnew)%list.
      split; [rewrite Ht2, Hrt, Hvt, <- app_assoc; reflexivity|].
      intros c0 e0 H; apply in_app_or in H as [H|[H|H]]; [|discriminate|now apply Hno in H].
      destruct (H2 c0 e0 H) as (rest & Hn & Hr & Hl).
      exists (rest ++ [EvRepair c e (Some fixed)] ++ EvValidate k c (Invalid e) :: vnew)%list.
      rewrite Hn; split; [reflexivity|]; split; [exact Hr|].
      now apply last_validation_app.
    + exists (EvRepair c e None :: EvValidate k c (Invalid e) :: vnew).
      cbv beta iota; cbn [snd fst].
      split; [rewrite Hrt, Hvt; reflexivity|].
      intros c0 e0 [H|H].
      * injection H as <- <-; eexists; split; [reflexivity|]; split; reflexivity.
      * now apply Hno in H.
Qed.

Lemma process_diagram_repair_failure (E : env) (maxRetries i : nat) (d : json)
    (st1 : state) (r : diagram_result) (st2 : state) (new : list event) (c : jsval) (e : string) :
  process_diagram E maxRetries i d st1 = (Some r, st2) ->
  trace st2 = (new ++ trace st1)%list ->
  In (EvRepair c e None) new ->
  exists rest, new = EvRepair c e None :: rest /\
    r_code r = c /\ r_valid r = false /\ r_error r = Some e /\
    last_validation rest = Some (Invalid e).
Proof.
  intros Hp Ht Hin; unfold process_diagram in Hp.
  destruct (get (Some d) "type") as [ty|]; [|discriminate].
  destruct (get (Some d) "code") as [code|]; [|discriminate].
  destruct (get (Some d) "position") as [pos|]; [|discriminate].
  destruct (js_to_string ty); [|discriminate].
  destruct (fix_loop_repair_failure E ty maxRetries (S maxRetries) 0 code None st1) as (new' & Ht' & Hf).
  destruct (fix_loop E (S maxRetries) ty maxRetries 0 code None st1) as [[[c' v] le] st'].
  simpl in Ht', Hf; injection Hp as <- <-.
  rewrite Ht' in Ht; apply app_inv_tail in Ht; subst new'.
  destruct (Hf c e Hin) as (rest & Hn & Hres & Hl); injection Hres as -> -> ->.
  exists rest; repeat split; assumption.
Qed.

(** ** Every entry yields a result *)

Lemma fix_loop_code (E : env) (ty : jsval) (maxRetries : nat) :
  forall fuel attempts c le st,
    fst (fst (fst (fix_loop E fuel ty maxRetries attempts c le st))) = c \/
    exists f, fst (fst (fst (fix_loop E fuel ty maxRetries attempts c le st))) = Some (JStr f).
Proof.
  induction fuel as [|fuel IH]; intros attempts c le st; [now left|].
  rewrite fix_loop_step.
  destruct (Nat.leb attempts maxRetries); [|now left].
  destruct (classify ty) as [k|]; [|now left].
  destruct (run_validator E k c st) as [[|e] st1]; [now left|].
  destruct (Nat.ltb attempts maxRetries); [|now left].
  destruct (repair_call E ty c e st1) as [[fixed|] st2]; [|now left].
  destruct (IH (S attempts) (Some (JStr fixed)) (Some e) st2) as [->|H]; [right; eauto | right; exact H].
Qed.

Lemma process_diagram_ok (E : env) (maxRetries i : nat) (d : json) (st : state) :
  entry_ok d ->
  exists r st', process_diagram E maxRetries i d st = (Some r, st') /\ result_ok r.
Proof.
  destruct d as [| | | | | fs]; try contradiction.
  intros (Hty & Hc & Hp); unfold process_diagram; rewrite !get_obj.
  destruct (js_to_string (assoc "type" fs)) as [t|] eqn:Ht; [|contradiction].
  destruct (fix_loop_code E (assoc "type" fs) maxRetries (S maxRetries) 0 (assoc "code" fs) None st)
    as [Hcode|[f Hcode]];
  destruct (fix_loop E (S maxRetries) (assoc "type" fs) maxRetries 0 (assoc "code" fs) None st)
    as [[[c' v] le] st']; simpl in Hcode; subst c';
  (eexists _, st'; split; [reflexivity|]); split; unfold printable; simpl; try assumption;
    try discriminate;
    destruct (assoc "position" fs) as [[]|]; simpl; try discriminate; assumption.
Qed.

Lemma validate_from_ok (E : env) (maxRetries : nat) :
  forall ds i st, Forall entry_ok ds ->
    exists rs st', validate_from E maxRetries i ds st = (Some rs, st') /\
      processed E maxRetries i ds st rs st' /\ Forall result_ok rs.
Proof.
  induction ds as [|d ds IH]; intros i st Hds.
  - exists [], st; repeat constructor.
  - inversion Hds as [|? ? Hd Hrest]; subst.
    destruct (process_diagram_ok E maxRetries i d st Hd) as (r & st1 & Hp & Hr).
    destruct (IH (S i) st1 Hrest) as (rs & st2 & Hv & Hpr & Hrs).
    exists (r :: rs), st2; simpl; rewrite Hp, Hv; split; [reflexivity|].
    split; [econstructor; eassumption | constructor; assumption].
Qed.

Lemma processed_length (E : env) (maxRetries i : nat) (ds : list json) (st : state)
    (rs : list diagram_result) (st' : state) :
  processed E maxRetries i ds st rs st' -> List.length rs = List.length ds.
Proof. induction 1; simpl; congruence. Qed.

Lemma substitute_all_ok (rs : list diagram_result) :
  Forall result_ok rs -> forall md, exists out, substitute_all md rs = Some out.
Proof.
  induction rs as [|d rs IH]; intros H md; [exists md; reflexivity|].
  apply Forall_cons_iff in H as [[Hc Hp] Hrs]; simpl; unfold assemble_step.
  unfold printable in Hc, Hp.
  destruct (js_to_string (r_originalPosition d)); [|congruence].
  destruct (js_to_string (r_code d)); [|congruence].
  apply IH, Hrs.
Qed.

(** C7: a repair call that throws ([EvRepair c e None] in the trace of an
    entry) is the last event of that entry: the loop stops there, the
    result keeps the text [c] that was being repaired, is not valid and
    carries the last validation error [e]. The other entries are still
    processed: for a response whose [markdown] is a non-empty string and
    whose [diagrams] is an array of entries with printable type, code and
    position, there is one result per entry, in order, and the request
    answers 200, whatever the validators and the OpenAI API do. *)
Theorem repair_failure_is_local (E : env) (fs : list (string * json)) (m : string)
    (ds : list json) (st : state) :
  assoc "markdown" fs = Some (JStr m) ->
  m <> "" ->
  assoc "diagrams" fs = Some (JArr ds) ->
  Forall entry_ok ds ->
  (forall i d st1 r st2 new c e,
     process_diagram E 2 i d st1 = (Some r, st2) ->
     trace st2 = (new ++ trace st1)%list ->
     In (EvRepair c e None) new ->
     exists rest, new = EvRepair c e None :: rest /\
       r_code r = c /\ r_valid r = false /\ r_error r = Some e /\
       last_validation rest = Some (Invalid e)) /\
  exists rs st' out,
    validateAndFixDiagrams E ds 2 st = (Some rs, st') /\
    processed E 2 0 ds st rs st' /\
    List.length rs = List.length ds /\
    analyze_parsed E (JObj fs) st = (Reply200 out, st').
Proof.
  intros Hm Hne Hd Hds; split.
  { intros i d st1 r st2 new c e; apply process_diagram_repair_failure. }
  destruct (validate_from_ok E 2 ds 0 st Hds) as (rs & st' & Hv & Hp & Hrs).
  destruct (substitute_all_ok rs Hrs m) as [out Hout].
  exists rs, st', (cleanup out); split; [exact Hv|]; split; [exact Hp|].
  split; [exact (processed_length E 2 0 ds st rs st' Hp)|].
  unfold analyze_parsed; rewrite !get_obj, Hm, Hd; simpl truthy.
  apply String.eqb_neq in Hne; rewrite Hne; simpl negb; cbv iota.
  unfold validateAndFixDiagrams; rewrite Hv; unfold assemble; rewrite Hout; reflexivity.
Qed.

Lemma repair_failure_is_local_witness :
  (forall i d st1 r st2 new c e,
     process_diagram offline_env 2 i d st1 = (Some r, st2) ->
     trace st2 = (new ++ trace st1)%list ->
     In (EvRepair c e None) new ->
     exists rest, new = EvRepair c e None :: rest /\
       r_code r = c /\ r_valid r = false /\ r_error r = Some e /\
       last_validation rest = Some (Invalid e)) /\
  exists rs st' out,
    validateAndFixDiagrams offline_env
      [JObj [("type", JStr "mermaid"); ("code", JStr "graph"); ("position", JNum 0)];
       JObj [("type", JStr "uml"); ("code", JStr "A->B")]] 2 st0 = (Some rs, st') /\
    processed offline_env 2 0
      [JObj [("type", JStr "mermaid"); ("code", JStr "graph"); ("position", JNum 0)];
       JObj [("type", JStr "uml"); ("code", JStr "A->B")]] st0 rs st' /\
    List.length rs = 2 /\
    analyze_parsed offline_env
      (JObj [("markdown", JStr "A {{DIAGRAM_0}} B {{DIAGRAM_1}}");
             ("diagrams", JArr [JObj [("type", JStr "mermaid"); ("code", JStr "graph"); ("position", JNum 0)];
                                JObj [("type", JStr "uml"); ("code", JStr "A->B")]])]) st0
      = (Reply200 out, st').
Proof.
  apply (repair_failure_is_local offline_env
           [("markdown", JStr "A {{DIAGRAM_0}} B {{DIAGRAM_1}}");
            ("diagrams", JArr [JObj [("type", JStr "mermaid"); ("code", JStr "graph"); ("position", JNum 0)];
                               JObj [("type", JStr "uml"); ("code", JStr "A->B")]])]
           "A {{DIAGRAM_0}} B {{DIAGRAM_1}}"
           [JObj [("type", JStr "mermaid"); ("code", JStr "graph"); ("position", JNum 0)];
            JObj [("type", JStr "uml"); ("code", JStr "A->B")]] st0).
  - reflexivity.
  - discriminate.
  - reflexivity.
  - repeat constructor; unfold printable; simpl; discriminate.
Defined.

(** ** The placeholder cleanup *)

Lemma strip_prefix_app (p s t r : string) :
  strip_prefix p s = Some r -> strip_prefix p (s ++ t) = Some (r ++ t).
Proof.
  revert s; induction p as [|a p IH]; intros [|b s] H; simpl in *; try discriminate.
  - now injection H as <-.
  - now injection H as <-.
  - destruct (Ascii.eqb a b); [now apply IH | discriminate].
Qed.

Lemma strip_prefix_self (p s : string) : strip_prefix p (p ++ s) = Some s.
Proof. induction p as [|a p IH]; simpl; [reflexivity | now rewrite Ascii.eqb_refl]. Qed.

Lemma strip_prefix_length (p s r : string) :
  strip_prefix p s = Some r -> String.length s = String.length p + String.length r.
Proof.
  revert s; induction p as [|a p IH]; intros [|b s] H; simpl in *; try discriminate.
  - now injection H as <-.
  - now injection H as <-.
  - destruct (Ascii.eqb a b); [now rewrite (IH s H) | discriminate].
Qed.

(** A prefix match that fails on [s] and succeeds on [s ++ t] runs into [t]. *)
Lemma strip_prefix_app_none (p s t : string) :
  strip_prefix p s = None -> strip_prefix p (s ++ t) <> None ->
  exists p2, p = s ++ p2 /\ strip_prefix p2 t <> None.
Proof.
  revert s; induction p as [|a p IH]; intros [|b s] H1 H2; simpl in *; try discriminate.
  - exists (String a p); split; [reflexivity | exact H2].
  - destruct (Ascii.eqb_spec a b) as [<-|]; [|contradiction].
    destruct (IH s H1 H2) as (p2 & -> & Hp2); exists p2; split; [reflexivity | exact Hp2].
Qed.

Lemma starts_close_app (u t : string) :
  starts_with "}}" (u ++ "{{" ++ t) = starts_with "}}" u.
Proof.
  unfold starts_with; destruct u as [|c [|d u]]; cbn [strip_prefix append]; [reflexivity| |].
  - destruct (Ascii.eqb "}" c); reflexivity.
  - destruct (Ascii.eqb "}" c), (Ascii.eqb "}" d); reflexivity.
Qed.

Lemma digits_close_app (u t : string) :
  digits_close (u ++ "{{" ++ t) = digits_close u.
Proof.
  induction u as [|c u IH]; [reflexivity|].
  change (String c u ++ "{{" ++ t) with (String c (u ++ "{{" ++ t)).
  cbn [digits_close]; rewrite IH.
  change (String c (u ++ "{{" ++ t)) with (String c u ++ "{{" ++ t).
  now rewrite starts_close_app.
Qed.

(** No suffix of ["DIAGRAM_"] starts with a brace. *)
Lemma diagram_suffix_no_brace (u v t : string) :
  "DIAGRAM_" = u ++ v -> v <> "" -> strip_prefix v ("{" ++ t) = None.
Proof.
  intros H Hv.
  do 8 (destruct u as [|? u]; [simpl in H; subst v; reflexivity | injection H as <- H]).
  destruct u; [simpl in H; subst v; contradiction | discriminate].
Qed.

(** A match of the cleanup pattern that starts in a non-empty [s] does not
    reach a following ["{{"]. *)
Lemma token_len_app (s t : string) :
  s <> "" -> token_len (s ++ "{{" ++ t) = token_len s.
Proof.
  intros Hs; unfold token_len.
  destruct (strip_prefix "{{DIAGRAM_" s) as [r|] eqn:Hsp.
  - rewrite (strip_prefix_app _ _ _ _ Hsp).
    destruct r as [|c r]; [reflexivity|].
    change (String c r ++ "{{" ++ t) with (String c (r ++ "{{" ++ t)).
    cbv iota; now rewrite digits_close_app.
  - destruct (strip_prefix "{{DIAGRAM_" (s ++ "{{" ++ t)) as [r|] eqn:Hst; [|reflexivity].
    destruct (strip_prefix_app_none _ _ _ Hsp ltac:(rewrite Hst; discriminate)) as (p2 & Hp & Hp2).
    exfalso; apply Hp2.
    destruct s as [|c1 s]; [contradiction|]; injection Hp as <- Hp.
    destruct s as [|c2 s]; [simpl in Hp; subst p2; reflexivity|]; injection Hp as <- Hp.
    destruct (String.eqb_spec p2 "") as [->|Hne].
    + rewrite str_app_nil_r in Hp; rewrite <- Hp in Hsp; simpl in Hsp; discriminate.
    + exact (diagram_suffix_no_brace s p2 ("{" ++ t) Hp Hne).
Qed.

Lemma digits_close_bound (u : string) (k : nat) :
  digits_close u = Some k -> k <= String.length u.
Proof.
  revert k; induction u as [|c u IH]; intros k H; cbn [digits_close] in H; [discriminate|].
  destruct (is_digit c).
  - destruct (digits_close u) as [k'|]; simpl in H; [|discriminate].
    injection H as <-; specialize (IH k' eq_refl); simpl; lia.
  - unfold starts_with in H; destruct (strip_prefix "}}" (String c u)) as [r|] eqn:Hs;
      [|discriminate].
    injection H as <-; apply strip_prefix_length in Hs; simpl in Hs |- *; lia.
Qed.

Lemma token_len_bound (s : string) (n : nat) :
  token_len s = Some n -> n <= String.length s.
Proof.
  unfold token_len; destruct (strip_prefix "{{DIAGRAM_" s) as [[|c r]|] eqn:Hs;
    try discriminate.
  destruct (is_digit c); [|discriminate].
  destruct (digits_close r) as [k|] eqn:Hd; simpl; intros H; [|discriminate].
  injection H as <-; apply digits_close_bound in Hd; apply strip_prefix_length in Hs.
  simpl in Hs; lia.
Qed.

(** The scan splits at a ["{{"] that it reaches outside a match. *)
Lemma cleanup_from_split (x t : string) (k : nat) :
  k <= String.length x ->
  cleanup_from k (x ++ "{{" ++ t) = cleanup_from k x ++ cleanup ("{{" ++ t).
Proof.
  revert k; induction x as [|c x IH]; intros k Hk.
  - simpl in Hk; assert (k = 0) as -> by lia; reflexivity.
  - change (String c x ++ "{{" ++ t) with (String c (x ++ "{{" ++ t)).
    destruct k as [|k]; cbn [cleanup_from].
    + change (String c (x ++ "{{" ++ t)) with (String c x ++ "{{" ++ t).
      rewrite token_len_app by discriminate.
      destruct (token_len (String c x)) as [n|] eqn:Ht.
      * apply token_len_bound in Ht; simpl in Ht; apply IH; lia.
      * simpl; now rewrite IH by lia.
    + apply IH; simpl in Hk; lia.
Qed.

Lemma cleanup_from_skip (u y : string) :
  cleanup_from (String.length u) (u ++ y) = cleanup y.
Proof. induction u as [|c u IH]; [reflexivity | exact IH]. Qed.

Lemma digits_close_all (pos y : string) :
  all_digits pos = true -> digits_close (pos ++ "}}" ++ y) = Some (String.length pos + 2).
Proof.
  induction pos as [|c pos IH]; intros H; [reflexivity|].
  simpl in H; apply andb_prop in H as [Hc Hp].
  change (String c pos ++ "}}" ++ y) with (String c (pos ++ "}}" ++ y)).
  cbn [digits_close]; rewrite Hc, (IH Hp); reflexivity.
Qed.

(** A placeholder with a non-empty run of digits is one match. *)
Lemma cleanup_placeholder (pos y : string) :
  all_digits pos = true -> pos <> "" -> cleanup (placeholder pos ++ y) = cleanup y.
Proof.
  intros Hd Hne; destruct pos as [|c pos]; [contradiction|].
  simpl in Hd; apply andb_prop in Hd as [Hc Hp].
  unfold cleanup at 1; unfold placeholder.
  rewrite !str_app_assoc.
  change ("{{DIAGRAM_" ++ String c pos ++ "}}" ++ y)
    with (String "{" ("{DIAGRAM_" ++ String c pos ++ "}}" ++ y)).
  cbn [cleanup_from].
  replace (token_len _) with (Some (11 + (String.length pos + 2))).
  - cbn [pred]; rewrite <- (cleanup_from_skip ("{DIAGRAM_" ++ String c pos ++ "}}") y).
    rewrite !str_app_assoc, !str_length_app; simpl; f_equal; lia.
  - unfold token_len.
    change (String "{" ("{DIAGRAM_" ++ String c pos ++ "}}" ++ y))
      with ("{{DIAGRAM_" ++ String c (pos ++ "}}" ++ y)).
    rewrite strip_prefix_self; cbv iota; rewrite Hc, (digits_close_all pos y Hp); reflexivity.
Qed.

(** The cleanup deletes a placeholder and leaves the text around it as if
    it were cleaned separately. *)
Lemma cleanup_drops_placeholder (x pos y : string) :
  all_digits pos = true -> pos <> "" ->
  cleanup (x ++ placeholder pos ++ y) = cleanup x ++ cleanup y.
Proof.
  intros Hd Hne; unfold cleanup at 1.
  change (placeholder pos ++ y) with ("{{" ++ (("DIAGRAM_" ++ pos ++ "}}") ++ y)).
  rewrite cleanup_from_split by lia.
  change ("{{" ++ ("DIAGRAM_" ++ pos ++ "}}") ++ y) with (placeholder pos ++ y).
  now rewrite cleanup_placeholder.
Qed.

(** ** Substitution of the first occurrence *)

Lemma no_dollar_app (u v : string) : no_dollar (u ++ v) = no_dollar u && no_dollar v.
Proof. induction u as [|c u IH]; simpl; [reflexivity | now rewrite IH, andb_assoc]. Qed.

Lemma get_substitution_plain (rep matched pre post : string) :
  no_dollar rep = true -> get_substitution rep matched pre post = rep.
Proof.
  induction rep as [|d r IH]; intros H; [reflexivity|].
  simpl in H; apply andb_prop in H as [Hd Hr].
  apply negb_true_iff in Hd; cbn [get_substitution]; rewrite Hd, (IH Hr); reflexivity.
Qed.

Lemma fence_plain (ty : jsval) (code : string) :
  no_dollar code = true -> no_dollar (fence ty code) = true.
Proof.
  intros H; unfold fence.
  destruct ty as [[| | | t | |]|]; try destruct (String.eqb t "mermaid");
    rewrite !no_dollar_app, H; reflexivity.
Qed.

Lemma substring_app_l (a z : string) : substring 0 (String.length a) (a ++ z) = a.
Proof. induction a as [|c a IH]; simpl; [now destruct z | now rewrite IH]. Qed.

Lemma substring_app_r (a z : string) (n m : nat) :
  substring (String.length a + n) m (a ++ z) = substring n m z.
Proof. induction a as [|c a IH]; [reflexivity | exact IH]. Qed.

Lemma replace_first_at (a pat b rep : string) :
  index_of (a ++ pat ++ b) pat = Some (String.length a) ->
  replace_first (a ++ pat ++ b) pat rep = a ++ get_substitution rep pat a b ++ b.
Proof.
  intros H; unfold replace_first; rewrite H.
  assert (Hpost : substring (String.length a + String.length pat)
                    (String.length (a ++ pat ++ b)) (a ++ pat ++ b) = b).
  { rewrite substring_app_r.
    rewrite <- (Nat.add_0_r (String.length pat)), substring_app_r.
    apply substring_all; rewrite !str_length_app; lia. }
  rewrite Hpost, substring_app_l; reflexivity.
Qed.

(** ** Occurrences of a placeholder *)

Lemma strip_prefix_some (p s r : string) : strip_prefix p s = Some r -> s = p ++ r.
Proof.
  revert s; induction p as [|a p IH]; intros [|b s] H; simpl in H; try discriminate.
  - injection H as <-; reflexivity.
  - injection H as <-; reflexivity.
  - destruct (Ascii.eqb_spec a b) as [<-|]; [|discriminate].
    rewrite (IH s H); reflexivity.
Qed.

Lemma strip_prefix_common (a u v : string) : strip_prefix (a ++ u) (a ++ v) = strip_prefix u v.
Proof. induction a as [|c a IH]; simpl; [reflexivity | now rewrite Ascii.eqb_refl]. Qed.

Lemma starts_with_app_l (p w z : string) :
  starts_with p w = true -> starts_with p (w ++ z) = true.
Proof.
  unfold starts_with; destruct (strip_prefix p w) as [r|] eqn:H; [|discriminate].
  rewrite (strip_prefix_app _ _ _ _ H); reflexivity.
Qed.

Lemma starts_with_app_split (p w z : string) :
  starts_with p (w ++ z) = true -> starts_with p w = false ->
  exists u, p = w ++ u /\ u <> "" /\ starts_with u z = true.
Proof.
  unfold starts_with; intros H1 H2.
  destruct (strip_prefix p w) as [r|] eqn:Hw; [discriminate|].
  destruct (strip_prefix_app_none p w z Hw) as (u & -> & Hu);
    [destruct (strip_prefix p (w ++ z)); discriminate|].
  exists u; split; [reflexivity|]; split.
  - intros ->; rewrite str_app_nil_r in Hw.
    pose proof (strip_prefix_self w "") as Hs; rewrite str_app_nil_r in Hs; congruence.
  - destruct (strip_prefix u z); [reflexivity | contradiction].
Qed.

Lemma index_of_head (s p : string) : starts_with p s = true -> index_of s p = Some 0.
Proof. intros H; destruct s; cbn [index_of]; rewrite H; reflexivity. Qed.

Lemma includes_occurrences (s p : string) :
  p <> "" -> (includes s p = false <-> occurrences p s = 0).
Proof.
  intros Hp; induction s as [|c r IH]; cbn [includes occurrences].
  - destruct p as [|a p]; [contradiction|]; split; reflexivity.
  - destruct (starts_with p (String c r)); simpl; [split; discriminate | exact IH].
Qed.

Lemma occurrences_index_none (s p : string) :
  p <> "" -> occurrences p s = 0 -> index_of s p = None.
Proof.
  intros Hp; induction s as [|c r IH]; cbn [occurrences index_of].
  - destruct p as [|a p]; [contradiction | reflexivity].
  - destruct (starts_with p (String c r)); [discriminate|]; simpl; intros H; rewrite (IH H); reflexivity.
Qed.

Lemma index_of_some_split (s p : string) (i : nat) :
  index_of s p = Some i -> exists P Q, s = P ++ p ++ Q /\ String.length P = i.
Proof.
  revert i; induction s as [|c r IH]; intros i; cbn [index_of].
  - destruct (starts_with p "") eqn:Hs; [|discriminate].
    intros H; injection H as <-; unfold starts_with in Hs.
    destruct (strip_prefix p "") as [q|] eqn:Hq; [|discriminate].
    apply strip_prefix_some in Hq; exists "", q; split; [exact Hq | reflexivity].
  - destruct (starts_with p (String c r)) eqn:Hs.
    + intros H; injection H as <-; unfold starts_with in Hs.
      destruct (strip_prefix p (String c r)) as [q|] eqn:Hq; [|discriminate].
      apply strip_prefix_some in Hq; exists "", q; split; [exact Hq | reflexivity].
    + destruct (index_of r p) as [j|] eqn:Hr; simpl; [|discriminate].
      intros H; injection H as <-.
      destruct (IH j eq_refl) as (P & Q & -> & <-).
      exists (String c P), Q; split; reflexivity.
Qed.

(** Searching past a prefix that no match of [p] crosses. *)
Lemma index_of_guarded (x z p : string) :
  p <> "" -> guards z p ->
  index_of (x ++ z) p =
    match index_of x p with
    | Some i => Some i
    | None => option_map (Nat.add (String.length x)) (index_of z p)
    end.
Proof.
  intros Hp Hg; induction x as [|c x IH].
  - assert (index_of "" p = None) as -> by (destruct p; [contradiction | reflexivity]).
    change ("" ++ z) with z; destruct (index_of z p); reflexivity.
  - change (String c x ++ z) with (String c (x ++ z)); cbn [index_of].
    change (String c (x ++ z)) with (String c x ++ z).
    rewrite (Hg (String c x) ltac:(discriminate)).
    destruct (starts_with p (String c x)); [reflexivity|].
    rewrite IH; destruct (index_of x p); [reflexivity|].
    destruct (index_of z p); reflexivity.
Qed.

Lemma occurrences_guarded (x z p : string) :
  guards z p -> occurrences p (x ++ z) = occurrences p x + occurrences p z.
Proof.
  intros Hg; induction x as [|c x IH]; [reflexivity|].
  change (String c x ++ z) with (String c (x ++ z)); cbn [occurrences].
  change (String c (x ++ z)) with (String c x ++ z).
  rewrite (Hg (String c x) ltac:(discriminate)), IH; lia.
Qed.

Lemma guards_barrier (c : ascii) (z p : string) :
  all_chars (fun d => negb (Ascii.eqb d c)) p = true -> guards (String c z) p.
Proof.
  intros Hp w Hw.
  destruct (starts_with p w) eqn:Hs; [apply starts_with_app_l, Hs|].
  destruct (starts_with p (w ++ String c z)) eqn:Hs2; [|reflexivity].
  destruct (starts_with_app_split p w (String c z) Hs2 Hs) as (u & -> & Hu & Hsu).
  rewrite all_chars_app in Hp; apply andb_prop in Hp as [_ Hp].
  destruct u as [|d u]; [contradiction|].
  cbn [all_chars] in Hp; apply andb_prop in Hp as [Hd _].
  unfold starts_with in Hsu; cbn [strip_prefix] in Hsu.
  destruct (Ascii.eqb d c); simpl in Hd, Hsu; discriminate.
Qed.

Lemma all_digits_no_char (c : ascii) (d : string) :
  is_digit c = false -> all_digits d = true -> all_chars (fun x => negb (Ascii.eqb x c)) d = true.
Proof.
  intros Hc; induction d as [|x d IH]; intros H; [reflexivity|].
  cbn [all_digits] in H; apply andb_prop in H as [Hx Hd].
  cbn [all_chars]; rewrite (IH Hd), andb_true_r.
  destruct (Ascii.eqb_spec x c) as [->|]; [congruence | reflexivity].
Qed.

Lemma placeholder_app (d y : string) :
  placeholder d ++ y = "{{" ++ ("DIAGRAM_" ++ d ++ "}}" ++ y).
Proof. unfold placeholder; rewrite !str_app_assoc; reflexivity. Qed.

(** A brace inside a placeholder with a run of digits is one of its two
    opening braces. *)
Lemma placeholder_brace (d w u : string) :
  all_digits d = true -> placeholder d = w ++ String "{" u -> w <> "" ->
  w = "{" /\ u = "DIAGRAM_" ++ d ++ "}}".
Proof.
  intros Hd H Hw; destruct w as [|c1 w]; [contradiction|].
  change (placeholder d) with (String "{" (String "{" ("DIAGRAM_" ++ d ++ "}}"))) in H.
  change (String c1 w ++ String "{" u) with (String c1 (w ++ String "{" u)) in H.
  injection H as <- H.
  destruct w as [|c2 w].
  - injection H as H; split; [reflexivity | symmetry; exact H].
  - change (String c2 w ++ String "{" u) with (String c2 (w ++ String "{" u)) in H.
    injection H as <- H.
    assert (Hl : all_chars (fun x => negb (Ascii.eqb x "{")) (w ++ String "{" u) = true).
    { rewrite <- H; cbn [all_chars].
      rewrite all_chars_app, (all_digits_no_char "{" d eq_refl Hd); reflexivity. }
    rewrite all_chars_app in Hl; cbn [all_chars] in Hl.
    rewrite Ascii.eqb_refl in Hl; simpl in Hl; rewrite andb_false_r in Hl; discriminate.
Qed.

Lemma guards_brace (d z : string) :
  all_digits d = true -> guards ("{{" ++ z) (placeholder d).
Proof.
  intros Hd w Hw.
  destruct (starts_with (placeholder d) w) eqn:Hs; [apply starts_with_app_l, Hs|].
  destruct (starts_with (placeholder d) (w ++ "{{" ++ z)) eqn:Hs2; [|reflexivity].
  destruct (starts_with_app_split _ w _ Hs2 Hs) as (u & Hpu & Hu & Hsu).
  destruct u as [|c u]; [contradiction|].
  unfold starts_with in Hsu; cbn [strip_prefix append] in Hsu.
  destruct (Ascii.eqb c "{") eqn:Ec; [|discriminate Hsu].
  apply Ascii.eqb_eq in Ec; subst c.
  destruct (placeholder_brace d w u Hd Hpu Hw) as [_ ->].
  discriminate Hsu.
Qed.

Lemma guards_placeholder (q d y : string) :
  all_digits d = true -> guards (placeholder q ++ y) (placeholder d).
Proof. intros Hd; rewrite placeholder_app; apply guards_brace, Hd. Qed.

Lemma fence_head (ty : jsval) (code : string) : exists z, fence ty code = String "`" z.
Proof.
  unfold fence; destruct ty as [[| | | t | |]|]; try destruct (String.eqb t "mermaid");
    eexists; reflexivity.
Qed.

Lemma guards_fence (ty : jsval) (code d y : string) :
  all_digits d = true -> guards (fence ty code ++ y) (placeholder d).
Proof.
  intros Hd; destruct (fence_head ty code) as [z ->].
  change (String "`" z ++ y) with (String "`" (z ++ y)); apply guards_barrier.
  unfold placeholder; rewrite !all_chars_app, (all_digits_no_char "`" d eq_refl Hd); reflexivity.
Qed.

Lemma strip_digits_close (d q y : string) :
  all_digits d = true -> all_digits q = true -> d <> q ->
  strip_prefix (d ++ "}}") (q ++ "}}" ++ y) = None.
Proof.
  revert q; induction d as [|c d IH]; intros [|c' q] Hd Hq Hne.
  - contradiction.
  - cbn [append strip_prefix]; destruct (Ascii.eqb_spec "}" c') as [<-|]; [discriminate Hq | reflexivity].
  - cbn [append strip_prefix]; destruct (Ascii.eqb_spec c "}") as [->|]; [discriminate Hd | reflexivity].
  - cbn [all_digits] in Hd, Hq; apply andb_prop in Hd as [_ Hd]; apply andb_prop in Hq as [_ Hq].
    cbn [append strip_prefix]; destruct (Ascii.eqb_spec c c') as [<-|]; [|reflexivity].
    apply IH; [exact Hd | exact Hq | intros ->; exact (Hne eq_refl)].
Qed.

Lemma placeholder_distinct (d q y : string) :
  all_digits d = true -> all_digits q = true -> d <> q ->
  starts_with (placeholder d) (placeholder q ++ y) = false.
Proof.
  intros Hd Hq Hne; unfold starts_with, placeholder; rewrite !str_app_assoc.
  rewrite strip_prefix_common, strip_digits_close by assumption; reflexivity.
Qed.

Lemma skips_nil (p : string) : skips "" p.
Proof. intros y; change ("" ++ y) with y; split; [destruct (index_of y p); reflexivity | reflexivity]. Qed.

Lemma skips_cons (c : ascii) (s p : string) :
  (forall y, starts_with p (String c s ++ y) = false) -> skips s p -> skips (String c s) p.
Proof.
  intros H Hs y; change (String c s ++ y) with (String c (s ++ y)); cbn [index_of occurrences].
  change (String c (s ++ y)) with (String c s ++ y); rewrite (H y).
  destruct (Hs y) as [Hi Ho]; rewrite Hi, Ho; split; [|reflexivity].
  destruct (index_of y p); reflexivity.
Qed.

Lemma skips_app (s1 s2 p : string) : skips s1 p -> skips s2 p -> skips (s1 ++ s2) p.
Proof.
  intros H1 H2 y; rewrite str_app_assoc.
  destruct (H1 (s2 ++ y)) as [I1 O1]; destruct (H2 y) as [I2 O2].
  rewrite I1, O1, I2, O2, str_length_app; split; [|reflexivity].
  destruct (index_of y p); simpl; [f_equal; lia | reflexivity].
Qed.

Lemma skips_nochar (d s : string) :
  all_chars (fun x => negb (Ascii.eqb x "{")) s = true -> skips s (placeholder d).
Proof.
  induction s as [|c s IH]; intros H; [apply skips_nil|].
  cbn [all_chars] in H; apply andb_prop in H as [Hc Hs].
  apply skips_cons; [|exact (IH Hs)].
  intros y; change (placeholder d) with (String "{" ("{DIAGRAM_" ++ d ++ "}}")).
  unfold starts_with; cbn [append strip_prefix].
  rewrite Ascii.eqb_sym; destruct (Ascii.eqb c "{"); [discriminate Hc | reflexivity].
Qed.

Lemma skips_barrier (s p : string) (c : ascii) :
  p <> "" -> all_chars (fun d => negb (Ascii.eqb d c)) p = true -> includes s p = false ->
  skips (s ++ String c "") p.
Proof.
  intros Hp Hc Hs y; rewrite str_app_assoc; change (String c "" ++ y) with (String c y).
  pose proof (proj1 (includes_occurrences s p Hp) Hs) as Ho.
  rewrite index_of_guarded, occurrences_guarded, (occurrences_index_none s p Hp Ho), Ho
    by (try exact Hp; apply guards_barrier, Hc).
  destruct p as [|a p]; [contradiction|].
  assert (Hh : starts_with (String a p) (String c y) = false).
  { cbn [all_chars] in Hc; apply andb_prop in Hc as [Ha _].
    unfold starts_with; cbn [strip_prefix].
    destruct (Ascii.eqb a c); [discriminate Ha | reflexivity]. }
  cbn [index_of occurrences]; rewrite Hh, str_length_app; split; [|reflexivity].
  destruct (index_of y (String a p)); simpl; [f_equal; lia | reflexivity].
Qed.

Lemma skips_fence (ty : jsval) (code d : string) :
  all_digits d = true -> includes code (placeholder d) = false ->
  skips (fence ty code) (placeholder d).
Proof.
  intros Hd Hc.
  assert (Hb : skips (code ++ nl ++ "```") (placeholder d)).
  { rewrite <- str_app_assoc; apply skips_app; [|apply skips_nochar; reflexivity].
    apply skips_barrier; [unfold placeholder; discriminate | | exact Hc].
    unfold placeholder; rewrite !all_chars_app, (all_digits_no_char (ascii_of_nat 10) d eq_refl Hd); reflexivity. }
  unfold fence; destruct ty as [[| | | t | |]|]; try destruct (String.eqb t "mermaid");
    (apply skips_app; [apply skips_nochar; reflexivity|]);
    (apply skips_app; [apply skips_nochar; reflexivity | exact Hb]).
Qed.

Lemma skips_placeholder (q d : string) :
  all_digits q = true -> all_digits d = true -> q <> d ->
  skips (placeholder q) (placeholder d).
Proof.
  intros Hq Hd Hne.
  change (placeholder q) with (String "{" (String "{" ("DIAGRAM_" ++ q ++ "}}"))).
  apply skips_cons.
  { intros y; change (String "{" (String "{" ("DIAGRAM_" ++ q ++ "}}")) ++ y) with (placeholder q ++ y).
    apply placeholder_distinct; [exact Hd | exact Hq | intros ->; exact (Hne eq_refl)]. }
  apply skips_cons; [intros y; reflexivity|].
  apply skips_nochar; rewrite !all_chars_app, (all_digits_no_char "{" q eq_refl Hq); reflexivity.
Qed.

Lemma substitute_all_app (md : string) (l1 l2 : list diagram_result) :
  substitute_all md (l1 ++ l2) =
    match substitute_all md l1 with Some m => substitute_all m l2 | None => None end.
Proof.
  revert md; induction l1 as [|d l1 IH]; intros md; [reflexivity|].
  cbn [app substitute_all]; destruct (assemble_step md d); [apply IH | reflexivity].
Qed.

Lemma search_past (X M Y p : string) :
  p <> "" -> guards (M ++ Y) p -> skips M p ->
  index_of (X ++ M ++ Y) p =
    match index_of X p with
    | Some i => Some i
    | None => option_map (Nat.add (String.length X + String.length M)) (index_of Y p)
    end.
Proof.
  intros Hp Hg Hs; rewrite (index_of_guarded X (M ++ Y) p Hp Hg).
  destruct (index_of X p); [reflexivity|].
  destruct (Hs Y) as [-> _]; destruct (index_of Y p); simpl; [f_equal; lia | reflexivity].
Qed.

(** One [replace] for a placeholder [p] that no match crosses at [M]: the
    first match lies before [M], after it, or nowhere. *)
Lemma other_step (X M Y p rep : string) :
  no_dollar rep = true ->
  index_of (X ++ M ++ Y) p =
    match index_of X p with
    | Some i => Some i
    | None => option_map (Nat.add (String.length X + String.length M)) (index_of Y p)
    end ->
  (exists P Q, X = P ++ p ++ Q /\ replace_first (X ++ M ++ Y) p rep = (P ++ rep ++ Q) ++ M ++ Y) \/
  (exists P Q, Y = P ++ p ++ Q /\ replace_first (X ++ M ++ Y) p rep = X ++ M ++ (P ++ rep ++ Q)) \/
  replace_first (X ++ M ++ Y) p rep = X ++ M ++ Y.
Proof.
  intros Hr Hi.
  destruct (index_of X p) as [i|] eqn:HX.
  - destruct (index_of_some_split X p i HX) as (P & Q & -> & <-).
    left; exists P, Q; split; [reflexivity|].
    rewrite !str_app_assoc in Hi |- *.
    rewrite replace_first_at by exact Hi.
    rewrite get_substitution_plain by exact Hr; rewrite !str_app_assoc; reflexivity.
  - destruct (index_of Y p) as [j|] eqn:HY.
    + destruct (index_of_some_split Y p j HY) as (P & Q & -> & <-).
      right; left; exists P, Q; split; [reflexivity|].
      replace (X ++ M ++ P ++ p ++ Q) with ((X ++ M ++ P) ++ p ++ Q) in Hi |- *
        by (rewrite !str_app_assoc; reflexivity).
      rewrite replace_first_at by (rewrite Hi, !str_length_app; simpl; f_equal; lia).
      rewrite get_substitution_plain by exact Hr; rewrite !str_app_assoc; reflexivity.
    + right; right; unfold replace_first; rewrite Hi; reflexivity.
Qed.

Section Placeholders.

Variable pos : string.
Hypothesis Hpos : all_digits pos = true.

Lemma occurrences_transfer (P Q pd cd : string) (ty : jsval) :
  all_digits pd = true -> pd <> pos -> includes cd (placeholder pos) = false ->
  occurrences (placeholder pos) (P ++ fence ty cd ++ Q) =
    occurrences (placeholder pos) (P ++ placeholder pd ++ Q).
Proof.
  intros Hd Hne Hc.
  rewrite (occurrences_guarded P (fence ty cd ++ Q)) by (apply guards_fence, Hpos).
  rewrite (occurrences_guarded P (placeholder pd ++ Q)) by (apply guards_placeholder, Hpos).
  destruct (skips_fence ty cd pos Hpos Hc Q) as [_ ->].
  destruct (skips_placeholder pd pos Hd Hpos Hne Q) as [_ ->].
  reflexivity.
Qed.

(** The [forEach] steps of other results keep a text [M] in place, leave
    no placeholder of [pos] before it and as many after it. *)
Lemma substitute_others (M : string) (n : nat) (ds : list diagram_result) :
  Forall (other_result pos) ds ->
  (forall d pd, In d ds -> js_to_string (r_originalPosition d) = Some pd ->
     all_digits pd = true -> pd <> pos ->
     skips M (placeholder pd) /\ forall Y, guards (M ++ Y) (placeholder pd)) ->
  forall X Y,
    occurrences (placeholder pos) X = 0 -> occurrences (placeholder pos) Y = n ->
    exists X' Y',
      substitute_all (X ++ M ++ Y) ds = Some (X' ++ M ++ Y') /\
      occurrences (placeholder pos) X' = 0 /\ occurrences (placeholder pos) Y' = n.
Proof.
  induction ds as [|d ds IH]; intros Hall HM X Y HX HY.
  - exists X, Y; split; [reflexivity | split; assumption].
  - apply Forall_cons_iff in Hall as [Hd Hds].
    destruct Hd as (pd & cd & Hp & Hpd & Hne & Hc & Hnd & Hinc).
    destruct (HM d pd (or_introl eq_refl) Hp Hpd Hne) as [Hs Hg].
    pose proof (search_past X M Y (placeholder pd) ltac:(unfold placeholder; discriminate) (Hg Y) Hs)
      as Hidx.
    assert (HM' : forall d' pd', In d' ds -> js_to_string (r_originalPosition d') = Some pd' ->
                    all_digits pd' = true -> pd' <> pos ->
                    skips M (placeholder pd') /\ forall Y, guards (M ++ Y) (placeholder pd'))
      by (intros d' pd' Hin; apply HM; right; exact Hin).
    cbn [substitute_all]; unfold assemble_step; rewrite Hp, Hc.
    destruct (other_step X M Y (placeholder pd) (fence (r_type d) cd) (fence_plain _ _ Hnd) Hidx)
      as [(P & Q & -> & ->) | [(P & Q & -> & ->) | -> ]].
    + apply (IH Hds HM'); [|exact HY].
      rewrite (occurrences_transfer P Q pd cd); assumption.
    + apply (IH Hds HM'); [exact HX|].
      rewrite (occurrences_transfer P Q pd cd); assumption.
    + apply (IH Hds HM'); assumption.
Qed.

End Placeholders.

(** ** C10: repeated placeholders *)

(** Counterexample to C10: two results that share slot [0] fill both
    occurrences of [{{DIAGRAM_0}}]; the second occurrence is not deleted. *)
Lemma shared_slot_fills_second_occurrence :
  assemble (Some (JStr "A {{DIAGRAM_0}} B {{DIAGRAM_0}}"))
    [{| r_type := Some (JStr "mermaid"); r_code := Some (JStr "graph TD");
        r_originalPosition := Some (JNum 0); r_valid := true; r_error := None |};
     {| r_type := Some (JStr "mermaid"); r_code := Some (JStr "graph LR");
        r_originalPosition := Some (JNum 0); r_valid := true; r_error := None |}]
  = Some ("A " ++ fence (Some (JStr "mermaid")) "graph TD" ++ " B "
          ++ fence (Some (JStr "mermaid")) "graph LR").
Proof. vm_compute; reflexivity. Qed.

(** C10 (amended): when the template holds the placeholder of a result [r]
    one or more times, assembling the results puts [r]'s fenced block at the
    first occurrence only: the text [a'] before the block holds no such
    placeholder, every later occurrence is still in the text [b'] after it
    (as many as in [b]), and the cleanup deletes each of them, leaving the
    text around it unchanged. The other results have other digit slot
    indexes, their codes contain no [$] and no placeholder of [r], and [r]'s
    code holds no placeholder of a later result. (Several results that share
    a slot fill several occurrences.) *)
Theorem first_occurrence_substituted (pre post : list diagram_result) (r : diagram_result)
    (pos code a b : string) :
  js_to_string (r_originalPosition r) = Some pos ->
  all_digits pos = true -> pos <> "" ->
  js_to_string (r_code r) = Some code -> no_dollar code = true ->
  includes a (placeholder pos) = false ->
  Forall (other_result pos) (pre ++ post) ->
  Forall (fun d => forall pd, js_to_string (r_originalPosition d) = Some pd ->
                              includes code (placeholder pd) = false) post ->
  exists a' b',
    assemble (Some (JStr (a ++ placeholder pos ++ b))) (pre ++ r :: post) =
      Some (cleanup (a' ++ fence (r_type r) code ++ b')) /\
    includes a' (placeholder pos) = false /\
    occurrences (placeholder pos) b' = occurrences (placeholder pos) b /\
    (forall x y, cleanup (x ++ placeholder pos ++ y) = cleanup x ++ cleanup y).
Proof.
  intros Hp Hd Hne Hc Hnd Ha Hall Hpost.
  apply Forall_app in Hall as [Hpre Hpo].
  assert (HT : placeholder pos <> "") by (unfold placeholder; discriminate).
  destruct (substitute_others pos Hd (placeholder pos) (occurrences (placeholder pos) b) pre Hpre)
    with (X := a) (Y := b) as (X1 & Y1 & H1 & HX1 & HY1).
  { intros d pd _ _ Hpd Hne'; split;
      [apply skips_placeholder; auto | intros Y; apply guards_placeholder, Hpd]. }
  { apply includes_occurrences; assumption. }
  { reflexivity. }
  destruct (substitute_others pos Hd (fence (r_type r) code) (occurrences (placeholder pos) b) post Hpo)
    with (X := X1) (Y := Y1) as (X2 & Y2 & H2 & HX2 & HY2).
  { intros d pd Hin Hpd Hdd _; split; [apply skips_fence; [exact Hdd|] | intros Y; apply guards_fence, Hdd].
    exact (proj1 (Forall_forall _ _) Hpost d Hin pd Hpd). }
  { exact HX1. }
  { exact HY1. }
  exists X2, Y2; split.
  - unfold assemble; rewrite substitute_all_app, H1; cbv iota; cbn [substitute_all].
    unfold assemble_step; rewrite Hp, Hc.
    rewrite replace_first_at.
    + rewrite get_substitution_plain by (apply fence_plain, Hnd); rewrite H2; reflexivity.
    + rewrite (index_of_guarded X1 (placeholder pos ++ Y1) (placeholder pos) HT
                 (guards_placeholder pos pos Y1 Hd)).
      rewrite (occurrences_index_none X1 _ HT HX1).
      rewrite (index_of_head (placeholder pos ++ Y1) (placeholder pos))
        by (unfold starts_with; rewrite strip_prefix_self; reflexivity).
      simpl; f_equal; lia.
  - split; [apply includes_occurrences; assumption|].
    split; [exact HY2|].
    intros x y; apply cleanup_drops_placeholder; assumption.
Qed.

Lemma first_occurrence_substituted_witness :
  exists a' b',
    assemble (Some (JStr ("A " ++ placeholder "0" ++ " B {{DIAGRAM_1}} C {{DIAGRAM_0}}")))
      ([] ++ {| r_type := Some (JStr "mermaid"); r_code := Some (JStr "graph TD");
                r_originalPosition := Some (JNum 0); r_valid := true; r_error := None |}
            :: [{| r_type := Some (JStr "mermaid"); r_code := Some (JStr "graph LR");
                   r_originalPosition := Some (JNum 1); r_valid := true; r_error := None |}]) =
      Some (cleanup (a' ++ fence (Some (JStr "mermaid")) "graph TD" ++ b')) /\
    includes a' (placeholder "0") = false /\
    occurrences (placeholder "0") b' = occurrences (placeholder "0") " B {{DIAGRAM_1}} C {{DIAGRAM_0}}" /\
    (forall x y, cleanup (x ++ placeholder "0" ++ y) = cleanup x ++ cleanup y).
Proof.
  apply (first_occurrence_substituted []
           [{| r_type := Some (JStr "mermaid"); r_code := Some (JStr "graph LR");
               r_originalPosition := Some (JNum 1); r_valid := true; r_error := None |}]
           {| r_type := Some (JStr "mermaid"); r_code := Some (JStr "graph TD");
              r_originalPosition := Some (JNum 0); r_valid := true; r_error := None |}
           "0" "graph TD" "A " " B {{DIAGRAM_1}} C {{DIAGRAM_0}}").
  - reflexivity.
  - reflexivity.
  - discriminate.
  - reflexivity.
  - reflexivity.
  - reflexivity.
  - repeat constructor; exists "1", "graph LR"; repeat split; try reflexivity; discriminate.
  - repeat constructor; intros pd Hpd; vm_compute in Hpd; injection Hpd as <-; reflexivity.
Defined.

(** ** C6: one cleanup pass *)

(** C6. The cleanup is a single left-to-right pass: deleting an inner
    placeholder can join the text around it into a new placeholder, which
    stays in the answer; assembling that answer again deletes it, so the
    assembly is not idempotent and its output can contain a placeholder. *)
Theorem cleanup_single_pass :
  analyze_parsed demo_env
    (JObj [("markdown", JStr "{{DIAGRAM_{{DIAGRAM_5}}0}}"); ("diagrams", JArr [])]) st0
    = (Reply200 "{{DIAGRAM_0}}", st0) /\
  assemble (Some (JStr "{{DIAGRAM_{{DIAGRAM_5}}0}}")) [] = Some "{{DIAGRAM_0}}" /\
  assemble (Some (JStr "{{DIAGRAM_0}}")) [] = Some "" /\
  token_len "{{DIAGRAM_0}}" = Some 13.
Proof. vm_compute; repeat split. Qed.

(** * Further properties of the code *)

(** ** [trim] *)

Lemma rev_string_app (a b : string) : rev_string (a ++ b) = rev_string b ++ rev_string a.
Proof.
  induction a as [|c a IH]; simpl.
  - now rewrite str_app_nil_r.
  - now rewrite IH, str_app_assoc.
Qed.

Lemma rev_string_involutive (s : string) : rev_string (rev_string s) = s.
Proof. induction s as [|c s IH]; simpl; [reflexivity | now rewrite rev_string_app, IH]. Qed.

Lemma trim_start_idem (s : string) : trim_start (trim_start s) = trim_start s.
Proof.
  induction s as [|c s IH]; simpl; [reflexivity|].
  destruct (is_ws c) eqn:Hc; [exact IH | simpl; now rewrite Hc].
Qed.

Lemma trim_start_app (a b : string) :
  trim_start (a ++ b) = if String.eqb (trim_start a) "" then trim_start b else trim_start a ++ b.
Proof.
  induction a as [|c a IH]; simpl; [reflexivity|].
  destruct (is_ws c); [exact IH | reflexivity].
Qed.

(** Removing the trailing blanks of a text that starts with a non-blank
    keeps that first character. *)
Lemma trim_end_keeps_head (v : string) :
  trim_start v = v -> trim_start (rev_string (trim_start (rev_string v))) =
                      rev_string (trim_start (rev_string v)).
Proof.
  destruct v as [|c r]; [reflexivity|]; intros Hv.
  assert (Hc : is_ws c = false).
  { destruct (is_ws c) eqn:Hc; [|reflexivity]; exfalso.
    simpl in Hv; rewrite Hc in Hv.
    assert (Hle : forall w, String.length (trim_start w) <= String.length w).
    { induction w as [|d w IH]; simpl; [lia|]; destruct (is_ws d); simpl; lia. }
    specialize (Hle r); rewrite Hv in Hle; simpl in Hle; lia. }
  simpl.
  rewrite trim_start_app; cbn [trim_start]; rewrite Hc.
  destruct (String.eqb (trim_start (rev_string r)) ""); simpl.
  - now rewrite Hc.
  - rewrite rev_string_app; simpl; now rewrite Hc.
Qed.

Lemma trim_idem (s : string) : trim (trim s) = trim s.
Proof.
  unfold trim.
  rewrite (trim_end_keeps_head (trim_start s)) by apply trim_start_idem.
  now rewrite rev_string_involutive, trim_start_idem.
Qed.

(** ** The validators read the trimmed text only *)

(** Leading and trailing whitespace of a diagram's text never changes
    what either validator does: validating [s] and validating [s.trim()]
    give the same outcome and the same calls. *)
Theorem validators_ignore_surrounding_blanks (E : env) (s : string) (st : state) :
  validateMermaid E (Some (JStr (trim s))) st = validateMermaid E (Some (JStr s)) st /\
  validatePlantUML E (Some (JStr (trim s))) st = validatePlantUML E (Some (JStr s)) st.
Proof. unfold validateMermaid, validatePlantUML; cbn; now rewrite trim_idem. Qed.

(** ** Unwrapping a repaired diagram *)

Lemma trim_unchanged (s : string) :
  trim_start s = s -> trim_start (rev_string s) = rev_string s -> trim s = s.
Proof.
  intros H1 H2; unfold trim; rewrite H1, H2; apply rev_string_involutive.
Qed.

Lemma drop_word_chars_app (w r : string) :
  all_word w = true -> drop_word_chars (w ++ nl ++ r) = nl ++ r.
Proof.
  induction w as [|c w IH]; intros H; [reflexivity|].
  simpl in H; apply andb_prop in H as [Hc Hw]; simpl; rewrite Hc; exact (IH Hw).
Qed.

(** A repair answer wrapped in a code fence with a language tag,
    [```tag\n ... \n```], becomes the trimmed text inside the fence. *)
Theorem clean_fix_unwraps_fence (w body : string) :
  all_word w = true ->
  clean_fix (trim ("```" ++ w ++ nl ++ body ++ nl ++ "```")) = trim body.
Proof.
  intros Hw.
  rewrite trim_unchanged; [| reflexivity |].
  2:{ rewrite !rev_string_app; rewrite !str_app_assoc; reflexivity. }
  unfold clean_fix, strip_open_fence; rewrite strip_prefix_self, drop_word_chars_app by exact Hw.
  change (nl ++ body ++ nl ++ "```") with (String (ascii_of_nat 10) (body ++ nl ++ "```")).
  cbv iota; rewrite Ascii.eqb_refl.
  unfold strip_close_fence; rewrite str_length_app.
  replace (String.length body + String.length (nl ++ "```") - 4) with (String.length body + 0)
    by (simpl; lia).
  rewrite substring_app_r, substring_all by reflexivity.
  replace (String.length body + 0) with (String.length body) by lia.
  rewrite substring_app_l.
  replace (Nat.leb 4 (String.length body + String.length (nl ++ "```"))) with true
    by (symmetry; apply Nat.leb_le; simpl; lia).
  reflexivity.
Qed.

Lemma clean_fix_unwraps_fence_witness :
  all_word "mermaid" = true /\
  clean_fix (trim ("```" ++ "mermaid" ++ nl ++ " graph TD; A-->B " ++ nl ++ "```")) =
    trim " graph TD; A-->B ".
Proof. split; [reflexivity | apply clean_fix_unwraps_fence; reflexivity]. Defined.

(** ** The cleanup leaves other text alone *)

Lemma cleanup_from_plain (s : string) :
  includes s "{{DIAGRAM_" = false -> cleanup_from 0 s = s.
Proof.
  induction s as [|c r IH]; intros H; [reflexivity|].
  simpl in H; apply orb_false_iff in H as [Hs Hr].
  cbn [cleanup_from]; unfold token_len.
  unfold starts_with in Hs; destruct (strip_prefix "{{DIAGRAM_" (String c r)); [discriminate|].
  now rewrite IH.
Qed.

(** A text without ["{{DIAGRAM_"] goes through the placeholder cleanup
    unchanged, so a document without placeholders and without diagrams is
    returned as it is. *)
Theorem cleanup_keeps_plain_text (s : string) :
  includes s "{{DIAGRAM_" = false ->
  cleanup s = s /\ assemble (Some (JStr s)) [] = Some s.
Proof.
  intros H; unfold assemble, cleanup; cbn [substitute_all].
  now rewrite cleanup_from_plain.
Qed.

Lemma cleanup_keeps_plain_text_witness :
  includes "# Title {{DIAGRAM_x}} {DIAGRAM_1}" "{{DIAGRAM_" = true /\
  includes "# Title {DIAGRAM_1} {{ DIAGRAM_2 }}" "{{DIAGRAM_" = false /\
  cleanup "# Title {DIAGRAM_1} {{ DIAGRAM_2 }}" = "# Title {DIAGRAM_1} {{ DIAGRAM_2 }}" /\
  assemble (Some (JStr "# Title {DIAGRAM_1} {{ DIAGRAM_2 }}")) [] = Some "# Title {DIAGRAM_1} {{ DIAGRAM_2 }}".
Proof.
  split; [reflexivity|]; split; [reflexivity|].
  apply cleanup_keeps_plain_text; reflexivity.
Defined.

(** ** Dollar signs in a diagram's code *)

Lemma get_substitution_app_plain (u r m p q : string) :
  no_dollar u = true -> get_substitution (u ++ r) m p q = u ++ get_substitution r m p q.
Proof.
  induction u as [|c u IH]; intros H; [reflexivity|].
  simpl in H; apply andb_prop in H as [Hc Hu]; apply negb_true_iff in Hc.
  cbn [append get_substitution]; rewrite Hc, (IH Hu); reflexivity.
Qed.

Lemma get_substitution_double_dollar (x y m p q : string) :
  no_dollar x = true -> no_dollar y = true ->
  get_substitution (x ++ "$$" ++ y) m p q = x ++ "$" ++ y.
Proof.
  intros Hx Hy; rewrite get_substitution_app_plain by exact Hx.
  cbn [append get_substitution]; rewrite Ascii.eqb_refl.
  now rewrite get_substitution_plain.
Qed.

(** A diagram's code goes through the replacement patterns of
    [String.prototype.replace]: a [$$] in the code reaches the document as
    a single [$]. *)
Theorem double_dollar_collapses (r : diagram_result) (pos u v a b : string) :
  js_to_string (r_originalPosition r) = Some pos ->
  r_code r = Some (JStr (u ++ "$$" ++ v)) ->
  no_dollar u = true -> no_dollar v = true ->
  index_of (a ++ placeholder pos ++ b) (placeholder pos) = Some (String.length a) ->
  assemble (Some (JStr (a ++ placeholder pos ++ b))) [r] =
    Some (cleanup (a ++ fence (r_type r) (u ++ "$" ++ v) ++ b)).
Proof.
  intros Hpos Hc Hu Hv Hidx.
  unfold assemble; cbn [substitute_all]; unfold assemble_step.
  rewrite Hpos, Hc; cbn [js_to_string json_to_string].
  rewrite replace_first_at by exact Hidx.
  assert (Hsplit : forall h, no_dollar h = true ->
            get_substitution (h ++ nl ++ (u ++ "$$" ++ v) ++ nl ++ "```") (placeholder pos) a b =
            h ++ nl ++ (u ++ "$" ++ v) ++ nl ++ "```").
  { intros h Hh.
    replace (h ++ nl ++ (u ++ "$$" ++ v) ++ nl ++ "```")
      with ((h ++ nl ++ u) ++ "$$" ++ (v ++ nl ++ "```")) by (now rewrite !str_app_assoc).
    rewrite get_substitution_double_dollar.
    - now rewrite !str_app_assoc.
    - rewrite !no_dollar_app, Hh, Hu; reflexivity.
    - rewrite !no_dollar_app, Hv; reflexivity. }
  unfold fence; destruct (r_type r) as [[| | | t | |]|];
    try destruct (String.eqb t "mermaid"); rewrite Hsplit by reflexivity; reflexivity.
Qed.

Lemma double_dollar_collapses_witness :
  assemble (Some (JStr ("Cost: " ++ placeholder "0")))
    [{| r_type := Some (JStr "mermaid"); r_code := Some (JStr ("graph TD; A[5" ++ "$$" ++ "]"));
        r_originalPosition := Some (JNum 0); r_valid := true; r_error := None |}]
  = Some (cleanup ("Cost: " ++ fence (Some (JStr "mermaid")) ("graph TD; A[5" ++ "$" ++ "]") ++ "")).
Proof.
  rewrite <- (str_app_nil_r (placeholder "0")), <- str_app_assoc.
  rewrite str_app_assoc.
  apply (double_dollar_collapses
           {| r_type := Some (JStr "mermaid"); r_code := Some (JStr ("graph TD; A[5" ++ "$$" ++ "]"));
              r_originalPosition := Some (JNum 0); r_valid := true; r_error := None |}
           "0" "graph TD; A[5" "]" "Cost: " "").
  - reflexivity.
  - reflexivity.
  - reflexivity.
  - reflexivity.
  - vm_compute; reflexivity.
Defined.

(** ** Bounds and outcome of the repair loop *)

Lemma fix_loop_bounds (E : env) (ty : jsval) (maxRetries : nat) :
  forall fuel attempts c le st,
    exists new,
      trace (snd (fix_loop E fuel ty maxRetries attempts c le st)) = (new ++ trace st)%list /\
      List.length (validator_calls new) <= S maxRetries - attempts /\
      repair_count new <= maxRetries - attempts.
Proof.
  induction fuel as [|fuel IH]; intros attempts c le st.
  { exists []; split; [reflexivity | split; apply Nat.le_0_l]. }
  rewrite fix_loop_step.
  destruct (Nat.leb_spec attempts maxRetries) as [Ha|Ha]; [|exists []; split; [reflexivity | split; apply Nat.le_0_l]].
  destruct (classify ty) as [k|]; [|exists []; split; [reflexivity | split; apply Nat.le_0_l]].
  destruct (run_validator_trace E k c st) as (vnew & Hvt & Hvc & Hvr).
  destruct (run_validator E k c st) as [o st1]; simpl in Hvt.
  assert (Hone : List.length (validator_calls (EvValidate k c o :: vnew)) = 1)
    by (simpl; rewrite Hvc; reflexivity).
  assert (Hzero : repair_count (EvValidate k c o :: vnew) = 0)
    by (unfold repair_count in *; simpl; exact Hvr).
  destruct o as [|e].
  { exists (EvValidate k c Valid :: vnew); split; [exact Hvt | lia]. }
  destruct (Nat.ltb_spec attempts maxRetries) as [Hlt|Hge].
  2:{ exists (EvValidate k c (Invalid e) :: vnew); split; [exact Hvt | lia]. }
  destruct (repair_call_trace E ty c e st1) as [[Hn Hs]|Hrt];
    destruct (repair_call E ty c e st1) as [r st2]; cbn [fst snd] in *.
  - subst r st2; exists (EvValidate k c (Invalid e) :: vnew); split; [exact Hvt | lia].
  - assert (Hv1 : List.length (validator_calls (EvRepair c e r :: EvValidate k c (Invalid e) :: vnew)) = 1)
      by (simpl; rewrite Hvc; reflexivity).
    assert (Hr1 : repair_count (EvRepair c e r :: EvValidate k c (Invalid e) :: vnew) = 1)
      by (unfold repair_count in *; simpl; rewrite Hvr; reflexivity).
    destruct r as [fixed|].
    + destruct (IH (S attempts) (Some (JStr fixed)) (Some e) st2) as (new2 & Ht2 & Hv2 & Hr2).
      exists (new2 ++ EvRepair c e (Some fixed) :: EvValidate k c (Invalid e) :: vnew)%list.
      split; [rewrite Ht2, Hrt, Hvt, <- app_assoc; reflexivity|].
      rewrite validator_calls_app, repair_count_app, length_app; lia.
    + cbv beta iota; cbn [snd].
      exists (EvRepair c e None :: EvValidate k c (Invalid e) :: vnew).
      split; [rewrite Hrt, Hvt; reflexivity | lia].
Qed.

(** Whatever the validators and the OpenAI API answer, one diagram entry
    causes at most [maxRetries + 1] validator calls and at most
    [maxRetries] repair calls. *)
Theorem process_diagram_call_bounds (E : env) (maxRetries i : nat) (d : json) (st : state)
    (r : diagram_result) (st' : state) :
  process_diagram E maxRetries i d st = (Some r, st') ->
  exists new, trace st' = (new ++ trace st)%list /\
    List.length (validator_calls new) <= S maxRetries /\ repair_count new <= maxRetries.
Proof.
  intros Hp; unfold process_diagram in Hp.
  destruct (get (Some d) "type") as [ty|]; [|discriminate].
  destruct (get (Some d) "code") as [code|]; [|discriminate].
  destruct (get (Some d) "position") as [pos|]; [|discriminate].
  destruct (js_to_string ty); [|discriminate].
  destruct (fix_loop_bounds E ty maxRetries (S maxRetries) 0 code None st) as (new & Ht & Hv & Hr).
  destruct (fix_loop E (S maxRetries) ty maxRetries 0 code None st) as [[[c' v] le] st''].
  simpl in Ht; injection Hp as _ <-.
  exists new; split; [exact Ht|]; rewrite Nat.sub_0_r in *; split; assumption.
Qed.

Lemma process_diagram_call_bounds_witness :
  exists r st',
    process_diagram rejecting_env 1 0 (JObj [("type", JStr "uml"); ("code", JStr "A->B")]) st0 = (Some r, st') /\
    exists new, trace st' = (new ++ trace st0)%list /\
    List.length (validator_calls new) <= 2 /\ repair_count new <= 1.
Proof.
  do 2 eexists; split; [reflexivity|].
  eapply (process_diagram_call_bounds rejecting_env 1 0
           (JObj [("type", JStr "uml"); ("code", JStr "A->B")]) st0 _ _).
  reflexivity.
Defined.

(** ** Request ids *)

Lemma parse36_from_app (v : nat) (s t : string) :
  parse36_from v (s ++ t) = parse36_from (parse36_from v s) t.
Proof. revert v; induction s as [|c s IH]; intros v; simpl; [reflexivity | apply IH]. Qed.

Lemma digit36_value_digit36 (d : nat) : d < 36 -> digit36_value (digit36 d) = d.
Proof.
  intros Hd; unfold digit36_value, digit36.
  destruct (Nat.ltb_spec d 10); rewrite nat_ascii_embedding by lia;
    [destruct (Nat.ltb_spec (48 + d) 58) | destruct (Nat.ltb_spec (87 + d) 58)]; lia.
Qed.

Lemma is_base36_digit36 (d : nat) : d < 36 -> is_base36_digit (digit36 d) = true.
Proof.
  intros Hd; unfold is_base36_digit, digit36.
  destruct (Nat.ltb_spec d 10); rewrite nat_ascii_embedding by lia;
    apply Bool.orb_true_iff; [left | right]; apply andb_true_iff; split; apply Nat.leb_le; lia.
Qed.

Lemma to_base36_fuel_ok (fuel n : nat) :
  n < fuel ->
  parse36_from 0 (to_base36_fuel fuel n) = n /\
  all_chars is_base36_digit (to_base36_fuel fuel n) = true /\
  to_base36_fuel fuel n <> "".
Proof.
  revert n; induction fuel as [|f IH]; intros n Hn; [lia|].
  cbn [to_base36_fuel]; destruct (Nat.ltb_spec n 36).
  - cbn [parse36_from all_chars].
    rewrite digit36_value_digit36, is_base36_digit36 by lia.
    split; [reflexivity | split; [reflexivity | discriminate]].
  - assert (Hd : n / 36 < n) by (apply Nat.div_lt; lia).
    assert (Hm : n mod 36 < 36) by (apply Nat.mod_upper_bound; lia).
    destruct (IH (n / 36)) as (H1 & H2 & H3); [lia|].
    rewrite parse36_from_app, all_chars_app, H1, H2; cbn [parse36_from all_chars].
    rewrite digit36_value_digit36, is_base36_digit36 by exact Hm.
    split; [pose proof (Nat.div_mod n 36 ltac:(lia)); lia|].
    split; [reflexivity|].
    destruct (to_base36_fuel f (n / 36)); [contradiction | discriminate].
Qed.

(** [Date.now().toString(36)] is a non-empty run of base-36 digits that
    reads back, in base 36, as the timestamp it was made from; so two
    requests get the same id only when they arrive in the same
    millisecond. *)
Theorem requestId_roundtrip (now : nat) :
  parse36_from 0 (requestId now) = now /\
  all_chars is_base36_digit (requestId now) = true /\
  requestId now <> "" /\
  (forall other, requestId other = requestId now -> other = now).
Proof.
  unfold requestId.
  destruct (to_base36_fuel_ok (S now) now ltac:(lia)) as (H1 & H2 & H3).
  split; [exact H1 | split; [exact H2 | split; [exact H3|]]].
  intros other Heq.
  destruct (to_base36_fuel_ok (S other) other ltac:(lia)) as (H4 & _ & _).
  rewrite <- H4, Heq; exact H1.
Qed.

(** ** CORS origins *)

Lemma split_on_cons (sep : ascii) (s : string) : split_on sep s <> [].
Proof.
  destruct s as [|c r]; simpl; [discriminate|].
  destruct (Ascii.eqb c sep); [discriminate|].
  destruct (split_on sep r); discriminate.
Qed.

Lemma join_with_cons_head (sep : string) (c : ascii) (h : string) (t : list string) :
  join_with sep (String c h :: t) = String c (join_with sep (h :: t)).
Proof. destruct t; reflexivity. Qed.

Lemma split_on_join (sep : ascii) (s : string) :
  join_with (String sep "") (split_on sep s) = s.
Proof.
  induction s as [|c r IH]; [reflexivity|]; cbn [split_on].
  destruct (Ascii.eqb_spec c sep) as [->|Hne].
  - pose proof (split_on_cons sep r) as Hc.
    destruct (split_on sep r) as [|h t]; [contradiction|].
    change (join_with (String sep "") ("" :: h :: t)) with
      ("" ++ String sep "" ++ join_with (String sep "") (h :: t)).
    rewrite IH; reflexivity.
  - pose proof (split_on_cons sep r) as Hc.
    destruct (split_on sep r) as [|h t]; [contradiction|].
    rewrite join_with_cons_head, IH; reflexivity.
Qed.

Lemma split_on_length (sep : ascii) (s : string) :
  List.length (split_on sep s) = S (count_char sep s).
Proof.
  induction s as [|c r IH]; [reflexivity|]; cbn [split_on count_char].
  destruct (Ascii.eqb c sep); cbn [List.length]; [rewrite IH; reflexivity|].
  pose proof (split_on_cons sep r) as Hc.
  destruct (split_on sep r) as [|h t]; [contradiction|]; exact IH.
Qed.

Lemma split_on_pieces (sep : ascii) (s : string) :
  Forall (fun p => count_char sep p = 0) (split_on sep s).
Proof.
  induction s as [|c r IH]; cbn [split_on]; [repeat constructor|].
  destruct (Ascii.eqb c sep) eqn:Hc; [constructor; [reflexivity | exact IH]|].
  destruct (split_on sep r) as [|h t]; [repeat constructor; cbn [count_char]; rewrite Hc; reflexivity|].
  apply Forall_cons_iff in IH as [Hh Ht].
  constructor; [cbn [count_char]; rewrite Hc, Hh; reflexivity | exact Ht].
Qed.

(** [CLIENT_ORIGIN] is cut at every comma and each piece is trimmed: the
    pieces are the comma-free segments that make up the variable, there is
    one origin more than there are commas (so an empty variable gives the
    single origin [""], not the default), and every origin is trimmed.
    When the variable is unset the only origin is
    [http://localhost:3000]. *)
Theorem clientOrigins_pieces (s : string) :
  (exists pieces,
     join_with "," pieces = s /\
     Forall (fun p => count_char "," p = 0) pieces /\
     clientOrigins (Some s) = map trim pieces) /\
  List.length (clientOrigins (Some s)) = S (count_char "," s) /\
  Forall (fun o => trim o = o) (clientOrigins (Some s)) /\
  clientOrigins None = ["http://localhost:3000"].
Proof.
  split; [exists (split_on "," s); split; [exact (split_on_join "," s)|]; split;
          [exact (split_on_pieces "," s) | reflexivity]|].
  split; [unfold clientOrigins; rewrite length_map; apply split_on_length|].
  split; [|reflexivity].
  unfold clientOrigins; apply Forall_forall; intros o Ho.
  apply in_map_iff in Ho as (p & <- & _); apply trim_idem.
Qed.

(** ** The handler from the upload *)

(** The uploaded file reaches the analysis only through its name and its
    first 12,000 characters: two uploads that agree on those get the same
    reply and the same effects, whatever follows. *)
Theorem analyze_request_reads_prefix (H : host) (E : env) (u1 u2 : upload) (st : state) :
  originalname u1 = originalname u2 ->
  slice0 12000 (file_text u1) = slice0 12000 (file_text u2) ->
  analyze_request H E (Some u1) st = analyze_request H E (Some u2) st.
Proof.
  intros Hn Hs; unfold analyze_request, buildPrompt; rewrite Hn, Hs; reflexivity.
Qed.

Lemma analyze_request_reads_prefix_witness :
  originalname {| originalname := "a.js"; file_text := "x" |} =
    originalname {| originalname := "a.js"; file_text := "x" |} /\
  analyze_request
    {| openai_api_key := Some "sk"; analysis_create := fun _ => ModelThrow;
       json_parse := fun _ => ParseError "x"; jsonrepair := fun _ => ParseError "y" |}
    demo_env (Some {| originalname := "a.js"; file_text := "x" |}) st0 =
  analyze_request
    {| openai_api_key := Some "sk"; analysis_create := fun _ => ModelThrow;
       json_parse := fun _ => ParseError "x"; jsonrepair := fun _ => ParseError "y" |}
    demo_env (Some {| originalname := "a.js"; file_text := "x" |}) st0.
Proof.
  split; [reflexivity|].
  apply analyze_request_reads_prefix; reflexivity.
Defined.

(** ** PlantUML errors are reported on one line *)

Definition lf : ascii := ascii_of_nat 10.

Lemma lower_lf (b : ascii) : lower b = lf -> b = lf.
Proof.
  unfold lower, lf; intros H.
  destruct (Nat.leb 65 (nat_of_ascii b) && Nat.leb (nat_of_ascii b) 90)%bool eqn:Hr; [|exact H].
  apply andb_true_iff in Hr as [H1 H2]; apply Nat.leb_le in H1; apply Nat.leb_le in H2.
  apply (f_equal nat_of_ascii) in H.
  rewrite nat_ascii_embedding in H by lia.
  change (nat_of_ascii (ascii_of_nat 10)) with 10 in H; lia.
Qed.

Lemma ci_starts_no_lf (p s : string) :
  ci_starts p s = true -> count_char lf p = 0 ->
  count_char lf (substring 0 (String.length p) s) = 0.
Proof.
  revert s; induction p as [|a p IH]; intros s Hs Hp; [destruct s; reflexivity|].
  destruct s as [|b s]; [discriminate|].
  cbn [ci_starts] in Hs; apply andb_true_iff in Hs as [Hab Hs].
  cbn [count_char] in Hp |- *; cbn [String.length substring]; cbn [count_char].
  apply Ascii.eqb_eq in Hab.
  destruct (Ascii.eqb_spec a lf) as [Ha|Ha]; [discriminate|].
  destruct (Ascii.eqb_spec b lf) as [Hb|Hb].
  - subst b; exfalso; apply Ha; rewrite Hab; reflexivity.
  - cbn [Nat.add] in *; apply IH; assumption.
Qed.

Lemma line_len_no_lf (s : string) : count_char lf (substring 0 (line_len s) s) = 0.
Proof.
  induction s as [|c s IH]; [reflexivity|]; cbn [line_len].
  fold lf; destruct (Ascii.eqb_spec c lf) as [_|Hc]; [reflexivity|].
  cbn [substring count_char]; destruct (Ascii.eqb_spec c lf); [contradiction|exact IH].
Qed.

Lemma substring_long (n m : nat) (s : string) :
  String.length s <= m -> substring n m s = substring n (String.length s) s.
Proof.
  revert n m; induction s as [|c s IH]; intros n m Hm.
  - destruct n, m; reflexivity.
  - destruct n as [|n]; cbn [String.length] in *.
    + rewrite !substring_all by (cbn [String.length]; lia); reflexivity.
    + cbn [substring].
      rewrite (IH n m), (IH n (S (String.length s))) by lia; reflexivity.
Qed.

Lemma take_line_no_lf (p : nat) (s : string) :
  count_char lf (substring 0 p s) = 0 ->
  count_char lf (substring 0 (p + line_len (substring p (String.length s) s)) s) = 0.
Proof.
  revert s; induction p as [|p IH]; intros s Hp.
  - rewrite (substring_all (String.length s) s (le_n _)); apply line_len_no_lf.
  - destruct s as [|c s]; [reflexivity|].
    cbn [substring count_char String.length Nat.add] in *.
    destruct (Ascii.eqb c lf); [discriminate|].
    rewrite (substring_long p (S (String.length s)) s) by lia.
    apply IH; exact Hp.
Qed.

Lemma error_match_eq (s : string) :
  error_match s =
    match (if ci_starts "cannot " s then
             let k := line_len (substring 7 (String.length s) s) in
             if Nat.eqb k 0 then None else Some (substring 0 (7 + k) s)
           else None) with
    | Some m => Some m
    | None =>
        if ci_starts "syntax error" s then
          Some (substring 0 (12 + line_len (substring 12 (String.length s) s)) s)
        else if ci_starts "error" s then
          Some (substring 0 (5 + line_len (substring 5 (String.length s) s)) s)
        else match s with
             | String _ r => error_match r
             | EmptyString => None
             end
    end.
Proof. destruct s; reflexivity. Qed.

Lemma error_match_no_lf (s m : string) : error_match s = Some m -> count_char lf m = 0.
Proof.
  induction s as [|c r IH]; intros Hm; rewrite error_match_eq in Hm.
  - discriminate.
  - destruct (ci_starts "cannot " (String c r)) eqn:H1; cbv zeta in Hm.
    + destruct (Nat.eqb _ 0) eqn:Hk.
      * destruct (ci_starts "syntax error" (String c r)) eqn:H2;
          [injection Hm as Hm; subst m; apply (take_line_no_lf 12 (String c r)); exact (ci_starts_no_lf _ _ H2 eq_refl)|].
        destruct (ci_starts "error" (String c r)) eqn:H3;
          [injection Hm as Hm; subst m; apply (take_line_no_lf 5 (String c r)); exact (ci_starts_no_lf _ _ H3 eq_refl)|].
        exact (IH Hm).
      * injection Hm as Hm; subst m; apply (take_line_no_lf 7 (String c r)); exact (ci_starts_no_lf _ _ H1 eq_refl).
    + destruct (ci_starts "syntax error" (String c r)) eqn:H2;
        [injection Hm as Hm; subst m; apply (take_line_no_lf 12 (String c r)); exact (ci_starts_no_lf _ _ H2 eq_refl)|].
      destruct (ci_starts "error" (String c r)) eqn:H3;
        [injection Hm as Hm; subst m; apply (take_line_no_lf 5 (String c r)); exact (ci_starts_no_lf _ _ H3 eq_refl)|].
      exact (IH Hm).
Qed.

Lemma count_char_app (c : ascii) (s t : string) :
  count_char c (s ++ t) = count_char c s + count_char c t.
Proof. induction s as [|d s IH]; cbn [append count_char]; [reflexivity | rewrite IH; lia]. Qed.

Lemma count_char_rev (c : ascii) (s : string) : count_char c (rev_string s) = count_char c s.
Proof.
  induction s as [|d s IH]; [reflexivity|]; cbn [rev_string count_char].
  rewrite count_char_app, IH; cbn [count_char]; lia.
Qed.

Lemma count_char_trim_start (c : ascii) (s : string) :
  count_char c (trim_start s) <= count_char c s.
Proof.
  induction s as [|d s IH]; [reflexivity|]; cbn [trim_start].
  destruct (is_ws d); cbn [count_char]; lia.
Qed.

Lemma count_char_trim (c : ascii) (s : string) : count_char c (trim s) <= count_char c s.
Proof.
  unfold trim; rewrite count_char_rev.
  eapply Nat.le_trans; [apply count_char_trim_start|].
  rewrite count_char_rev; apply count_char_trim_start.
Qed.

(** When the PlantUML server answers with an OK status, the text is valid
    exactly when the body shows none of the error markers; otherwise the
    reported error is a single line (the matched line of the body,
    trimmed, or the generic message). *)
Theorem plantuml_error_single_line (E : env) (s : string) (st : state)
    (status : Z) (statusText text : string) :
  trim s <> "" ->
  fetch_txt E (List.length (filter is_fetch (trace st)))
    (plantuml_url (plantuml_encode E (trim s))) = FetchResponse true status statusText text ->
  (has_error_marker text = false -> fst (validatePlantUML E (Some (JStr s)) st) = Valid) /\
  (has_error_marker text = true ->
     exists m, fst (validatePlantUML E (Some (JStr s)) st) = Invalid m /\ count_char lf m = 0).
Proof.
  intros Hne Hf; unfold validatePlantUML.
  destruct (String.eqb_spec (trim s) "") as [Heq|_]; [contradiction|].
  cbv zeta; rewrite Hf; cbn [negb fst].
  split; intros Hm; rewrite Hm; [reflexivity|].
  eexists; split; [reflexivity|].
  destruct (error_match text) as [m|] eqn:Hem; [|reflexivity].
  pose proof (count_char_trim lf m); pose proof (error_match_no_lf text m Hem); lia.
Qed.

Lemma plantuml_error_single_line_witness :
  trim "A->B" <> "" /\
  fetch_txt rejecting_env (List.length (filter is_fetch (trace st0)))
    (plantuml_url (plantuml_encode rejecting_env (trim "A->B"))) =
    FetchResponse true 200 "OK" "Syntax Error?" /\
  (has_error_marker "Syntax Error?" = false ->
     fst (validatePlantUML rejecting_env (Some (JStr "A->B")) st0) = Valid) /\
  (has_error_marker "Syntax Error?" = true ->
     exists m, fst (validatePlantUML rejecting_env (Some (JStr "A->B")) st0) = Invalid m /\
               count_char lf m = 0).
Proof.
  split; [vm_compute; discriminate|]; split; [reflexivity|].
  apply (plantuml_error_single_line rejecting_env "A->B" st0 200 "OK"); [vm_compute; discriminate | reflexivity].
Defined.

(** ** The result reports the last validation *)

Lemma last_check_app (l1 l2 : list event) (x : vkind * jsval * outcome) :
  last_check l1 = Some x -> last_check (l1 ++ l2) = Some x.
Proof. induction l1 as [|[k1 c1 o1|src|url|c1 e1 f1] l1 IH]; simpl; try discriminate; auto. Qed.

Lemma fix_loop_agrees (E : env) (ty : jsval) (k : vkind) (maxRetries : nat) :
  classify ty = Some k ->
  forall fuel attempts c le st,
    maxRetries - attempts < fuel -> attempts <= maxRetries ->
    exists new,
      trace (snd (fix_loop E fuel ty maxRetries attempts c le st)) = (new ++ trace st)%list /\
      let '(c', v, le') := fst (fix_loop E fuel ty maxRetries attempts c le st) in
      if v then last_check new = Some (k, c', Valid)
      else exists e, le' = Some e /\ last_check new = Some (k, c', Invalid e).
Proof.
  intros Hk; induction fuel as [|fuel IH]; intros attempts c le st Hf Ha; [lia|].
  rewrite fix_loop_step.
  destruct (Nat.leb_spec attempts maxRetries) as [_|Hgt]; [|lia].
  rewrite Hk.
  destruct (run_validator_trace E k c st) as (vnew & Hvt & _ & _).
  destruct (run_validator E k c st) as [o st1]; cbn [fst snd] in Hvt.
  destruct o as [|e].
  { exists (EvValidate k c Valid :: vnew); split; [exact Hvt | reflexivity]. }
  destruct (Nat.ltb_spec attempts maxRetries) as [Hlt|Hge].
  2:{ exists (EvValidate k c (Invalid e) :: vnew); split; [exact Hvt|].
      exists e; split; reflexivity. }
  destruct (repair_call_trace E ty c e st1) as [[Hn Hs]|Hrt];
    destruct (repair_call E ty c e st1) as [r st2]; cbn [fst snd] in *.
  - subst r st2; exists (EvValidate k c (Invalid e) :: vnew); split; [exact Hvt|].
    exists e; split; reflexivity.
  - destruct r as [fixed|].
    + destruct (IH (S attempts) (Some (JStr fixed)) (Some e) st2) as (new2 & Ht2 & Hag); [lia | lia |].
      exists (new2 ++ EvRepair c e (Some fixed) :: EvValidate k c (Invalid e) :: vnew)%list.
      split; [rewrite Ht2, Hrt, Hvt, <- app_assoc; reflexivity|].
      destruct (fst (fix_loop E fuel ty maxRetries (S attempts) (Some (JStr fixed)) (Some e) st2))
        as [[c' v] le'].
      destruct v; [apply last_check_app; exact Hag|].
      destruct Hag as (e' & He' & Hl); exists e'; split; [exact He' | apply last_check_app; exact Hl].
    + cbv beta iota; cbn [fst snd].
      exists (EvRepair c e None :: EvValidate k c (Invalid e) :: vnew).
      split; [rewrite Hrt, Hvt; reflexivity|].
      exists e; split; reflexivity.
Qed.

(** For an entry of a known type, the result agrees with the last
    validator call the loop made, which was made on the returned code:
    a result marked valid carries no error and its code was the last one
    accepted; a result marked invalid carries the error of the last
    rejection of its code. *)
Theorem result_reports_last_validation (E : env) (maxRetries i : nat) (d : json) (st : state)
    (r : diagram_result) (st' : state) (k : vkind) :
  process_diagram E maxRetries i d st = (Some r, st') ->
  classify (r_type r) = Some k ->
  exists new, trace st' = (new ++ trace st)%list /\
    if r_valid r then r_error r = None /\ last_check new = Some (k, r_code r, Valid)
    else exists e, r_error r = Some e /\ last_check new = Some (k, r_code r, Invalid e).
Proof.
  intros Hp Hk; unfold process_diagram in Hp.
  destruct (get (Some d) "type") as [ty|]; [|discriminate].
  destruct (get (Some d) "code") as [code|]; [|discriminate].
  destruct (get (Some d) "position") as [pos|]; [|discriminate].
  destruct (js_to_string ty); [|discriminate].
  destruct (fix_loop E (S maxRetries) ty maxRetries 0 code None st)
    as [[[c' v] le] st''] eqn:Hfl.
  injection Hp as <- <-; cbn [r_type r_valid r_error r_code] in *.
  destruct (fix_loop_agrees E ty k maxRetries Hk (S maxRetries) 0 code None st ltac:(lia) ltac:(lia))
    as (new & Ht & Hag).
  rewrite Hfl in Ht, Hag; cbn [fst snd] in Ht, Hag.
  exists new; split; [exact Ht|].
  destruct v; [split; [reflexivity | exact Hag]|exact Hag].
Qed.

Lemma result_reports_last_validation_witness :
  exists r st',
    process_diagram rejecting_env 1 0 (JObj [("type", JStr "uml"); ("code", JStr "A->B")]) st0 = (Some r, st') /\
    classify (r_type r) = Some KPlantUML /\
    exists new, trace st' = (new ++ trace st0)%list /\
      if r_valid r then r_error r = None /\ last_check new = Some (KPlantUML, r_code r, Valid)
      else exists e, r_error r = Some e /\ last_check new = Some (KPlantUML, r_code r, Invalid e).
Proof.
  do 2 eexists; split; [reflexivity|]; split; [reflexivity|].
  eapply (result_reports_last_validation rejecting_env 1 0
            (JObj [("type", JStr "uml"); ("code", JStr "A->B")]) st0 _ _ KPlantUML);
    reflexivity.
Defined.

(** An entry of a known type whose code the validator accepts at the first
    call is returned as it came, marked valid, without error, after that
    single validator call and no repair call. *)
Theorem valid_first_try_untouched (E : env) (maxRetries i : nat) (d : json) (st : state)
    (ty code : jsval) (k : vkind) :
  get (Some d) "type" = Some ty -> get (Some d) "code" = Some code ->
  classify ty = Some k ->
  fst (validator E k code st) = Valid ->
  exists r new,
    fst (process_diagram E maxRetries i d st) = Some r /\
    r_code r = code /\ r_valid r = true /\ r_error r = None /\
    trace (snd (process_diagram E maxRetries i d st)) = EvValidate k code Valid :: (new ++ trace st)%list /\
    validator_calls new = [] /\ repair_count new = 0.
Proof.
  intros Hty Hc Hk Hv; unfold process_diagram; rewrite Hty, Hc.
  assert (Hs : js_to_string ty <> None).
  { destruct ty as [[| | | | |]|]; cbn in Hk; discriminate. }
  destruct (get (Some d) "position") as [pos|] eqn:Hpos.
  2:{ exfalso. unfold get in *. destruct d; cbn in Hpos; try discriminate; cbn in Hty; discriminate. }
  destruct (js_to_string ty) as [t|]; [|contradiction].
  rewrite fix_loop_step.
  destruct (Nat.leb_spec 0 maxRetries) as [_|]; [|lia].
  rewrite Hk.
  destruct (run_validator_trace E k code st) as (vnew & Hvt & Hvc & Hvr).
  assert (Ho : fst (run_validator E k code st) = Valid)
    by (unfold run_validator; destruct (validator E k code st); exact Hv).
  destruct (run_validator E k code st) as [o st1]; cbn [fst snd] in Hvt, Ho; subst o.
  eexists _, vnew; cbn [fst snd r_code r_valid r_error].
  repeat split; assumption.
Qed.

Lemma valid_first_try_untouched_witness :
  exists r new,
    fst (process_diagram demo_env 2 0
           (JObj [("type", JStr "mermaid"); ("code", JStr "graph TD; A-->B")]) st0) = Some r /\
    r_code r = Some (JStr "graph TD; A-->B") /\ r_valid r = true /\ r_error r = None /\
    trace (snd (process_diagram demo_env 2 0
           (JObj [("type", JStr "mermaid"); ("code", JStr "graph TD; A-->B")]) st0)) =
      EvValidate KMermaid (Some (JStr "graph TD; A-->B")) Valid :: (new ++ trace st0)%list /\
    validator_calls new = [] /\ repair_count new = 0.
Proof.
  apply (valid_first_try_untouched demo_env 2 0
           (JObj [("type", JStr "mermaid"); ("code", JStr "graph TD; A-->B")]) st0
           (Some (JStr "mermaid")) (Some (JStr "graph TD; A-->B")) KMermaid);
    vm_compute; reflexivity.
Defined.

(** ** The validated list is aligned with the input list *)

Lemma validate_from_processed (E : env) (maxRetries : nat) :
  forall ds i st rs st',
    validate_from E maxRetries i ds st = (Some rs, st') -> processed E maxRetries i ds st rs st'.
Proof.
  induction ds as [|d ds IH]; intros i st rs st' Hv; cbn [validate_from] in Hv.
  - injection Hv as <- <-; constructor.
  - destruct (process_diagram E maxRetries i d st) as [[r|] st1] eqn:Hp; [|discriminate].
    destruct (validate_from E maxRetries (S i) ds st1) as [[rs'|] st2] eqn:Hv2; [|discriminate].
    cbn [option_map] in Hv; injection Hv as <- <-.
    econstructor; [exact Hp | apply IH; exact Hv2].
Qed.

Lemma process_diagram_fields (E : env) (maxRetries i : nat) (d : json) (st : state)
    (r : diagram_result) (st' : state) :
  process_diagram E maxRetries i d st = (Some r, st') ->
  get (Some d) "type" = Some (r_type r) /\
  exists pos, get (Some d) "position" = Some pos /\
    r_originalPosition r = nullish pos (Some (JNum (Z.of_nat i))).
Proof.
  intros Hp; unfold process_diagram in Hp.
  destruct (get (Some d) "type") as [ty|]; [|discriminate].
  destruct (get (Some d) "code") as [code|]; [|discriminate].
  destruct (get (Some d) "position") as [pos|]; [|discriminate].
  destruct (js_to_string ty); [|discriminate].
  destruct (fix_loop E (S maxRetries) ty maxRetries 0 code None st) as [[[c' v] le] st''].
  injection Hp as <- _; split; [reflexivity | exists pos; split; reflexivity].
Qed.

(** When [validateAndFixDiagrams] returns, it returns one result per
    entry, in the order of the entries: the [j]-th result has the type of
    the [j]-th entry, and its slot is that entry's position, or [j] when
    the position is absent or null. *)
Theorem validated_list_aligned (E : env) (ds : list json) (maxRetries : nat) (st : state)
    (rs : list diagram_result) (st' : state) :
  validateAndFixDiagrams E ds maxRetries st = (Some rs, st') ->
  List.length rs = List.length ds /\
  forall j d r, nth_error ds j = Some d -> nth_error rs j = Some r ->
    get (Some d) "type" = Some (r_type r) /\
    exists pos, get (Some d) "position" = Some pos /\
      r_originalPosition r = nullish pos (Some (JNum (Z.of_nat j))).
Proof.
  unfold validateAndFixDiagrams; intros Hv.
  apply validate_from_processed in Hv.
  split; [exact (processed_length _ _ _ _ _ _ _ Hv)|].
  assert (Hgen : forall i ds st rs st', processed E maxRetries i ds st rs st' ->
            forall j d r, nth_error ds j = Some d -> nth_error rs j = Some r ->
              get (Some d) "type" = Some (r_type r) /\
              exists pos, get (Some d) "position" = Some pos /\
                r_originalPosition r = nullish pos (Some (JNum (Z.of_nat (i + j))))).
  { clear; induction 1 as [i st|i d ds st r st1 rs st2 Hp Hrest IH];
      intros j d' r' Hd Hr; [destruct j; discriminate|].
    destruct j as [|j]; cbn [nth_error] in Hd, Hr.
    - injection Hd as <-; injection Hr as <-; rewrite Nat.add_0_r.
      exact (process_diagram_fields _ _ _ _ _ _ _ Hp).
    - rewrite Nat.add_succ_r, <- Nat.add_succ_l; exact (IH j d' r' Hd Hr). }
  intros j d r Hd Hr; exact (Hgen 0 ds st rs st' Hv j d r Hd Hr).
Qed.

Lemma validated_list_aligned_witness :
  exists rs st',
    validateAndFixDiagrams demo_env
      [JObj [("type", JStr "mermaid"); ("code", JStr "graph TD; A-->B")];
       JObj [("type", JStr "note"); ("code", JStr "x"); ("position", JNum 7)]] 2 st0 = (Some rs, st') /\
    List.length rs = 2 /\
    forall j d r,
      nth_error [JObj [("type", JStr "mermaid"); ("code", JStr "graph TD; A-->B")];
                 JObj [("type", JStr "note"); ("code", JStr "x"); ("position", JNum 7)]] j = Some d ->
      nth_error rs j = Some r ->
      get (Some d) "type" = Some (r_type r) /\
      exists pos, get (Some d) "position" = Some pos /\
        r_originalPosition r = nullish pos (Some (JNum (Z.of_nat j))).
Proof.
  do 2 eexists; split; [reflexivity|].
  eapply (validated_list_aligned demo_env
            [JObj [("type", JStr "mermaid"); ("code", JStr "graph TD; A-->B")];
             JObj [("type", JStr "note"); ("code", JStr "x"); ("position", JNum 7)]] 2 st0).
  reflexivity.
Defined.

(** ** The extracted text is trimmed *)










